(** * stock-ai-frontend: the search / selection / fetch core of [src/App.tsx]

    A shallow embedding of the [App] component: its module-level helpers
    ([getUnit], [getApiUrl]), the CSV catalog parser ([parseCSV]), the
    three [useEffect] bodies and the event handlers, followed by the
    properties of the search-and-selection state machine.

    Conventions.
    - A JavaScript string is a Rocq [string]; the template literals and
      [+] are [+:+].
    - [T | null] and [T | undefined] are [option T].
    - One transition of the machine is one browser task: an event handler
      runs, React re-renders, and the effects whose dependencies changed
      run; the states of the machine are the states between two tasks. *)

From Stdlib Require Import Ascii QArith.
From stdpp Require Import base decidable option list strings.

(** ** JavaScript string primitives used by the component *)

Module Js.

(** ['\n'], ['\r'], [','] and ['/']. *)
Definition LF : ascii := Ascii.ascii_of_nat 10.
Definition CR : ascii := Ascii.ascii_of_nat 13.
Definition comma : ascii := ","%char.
Definition slash : ascii := "/"%char.

(** [s.split(sep)] for a one-character separator: never the empty array,
    [''.split(sep)] is [['']]. *)
Fixpoint split (sep : ascii) (s : string) : list string :=
  match s with
  | EmptyString => [EmptyString]
  | String c s' =>
      if Ascii.eqb c sep then EmptyString :: split sep s'
      else match split sep s' with
           | h :: t => String c h :: t
           | [] => [String c EmptyString]
           end
  end.

(** [s.replace(/c/g, '')]: every occurrence of the character removed. *)
Fixpoint removeAll (c : ascii) (s : string) : string :=
  match s with
  | EmptyString => EmptyString
  | String d s' =>
      if Ascii.eqb d c then removeAll c s' else String d (removeAll c s')
  end.

(** [s.replace(/\/$/, '')]: the pattern is anchored at the end of the
    input, so the only character it can match is a final ['/'], and the
    replacement (not global) removes that one character. *)
Fixpoint replaceTrailingSlash (s : string) : string :=
  match s with
  | EmptyString => EmptyString
  | String c EmptyString => if Ascii.eqb c slash then EmptyString else s
  | String c s' => String c (replaceTrailingSlash s')
  end.

(** [s.startsWith(q)]. *)
Fixpoint startsWith (s q : string) {struct q} : bool :=
  match q, s with
  | EmptyString, _ => true
  | String _ _, EmptyString => false
  | String a q', String b s' => Ascii.eqb a b && startsWith s' q'
  end.

(** [s.includes(q)]: [q] occurs at some position of [s]. *)
Fixpoint includes (s q : string) : bool :=
  startsWith s q ||
  match s with
  | EmptyString => false
  | String _ s' => includes s' q
  end.

(** [!v] for [v : string | undefined]: [undefined] and [''] are falsy. *)
Definition falsy (v : option string) : bool :=
  match v with
  | None => true
  | Some s => String.eqb s ""
  end.

(** [lines.join('\n')], the inverse of [split] used to describe inputs. *)
Fixpoint join (sep : ascii) (l : list string) : string :=
  match l with
  | [] => EmptyString
  | [x] => x
  | x :: l' => x +:+ String sep (join sep l')
  end.

(** The character does not occur in the string. *)
Fixpoint lacks (c : ascii) (s : string) : bool :=
  match s with
  | EmptyString => true
  | String d s' => negb (Ascii.eqb d c) && lacks c s'
  end.

(** The string ends with the character. *)
Fixpoint endsWithChar (c : ascii) (s : string) : bool :=
  match s with
  | EmptyString => false
  | String d EmptyString => Ascii.eqb d c
  | String _ s' => endsWithChar c s'
  end.

(** [s.endsWith(q)]: some suffix of [s] is [q]. *)
Fixpoint endsWith (s q : string) : bool :=
  String.eqb s q ||
  match s with
  | EmptyString => false
  | String _ s' => endsWith s' q
  end.

(** Number of positions at which two consecutive slashes start. *)
Fixpoint doubleSlashes (s : string) : nat :=
  match s with
  | EmptyString => 0
  | String c s' =>
      (if Ascii.eqb c slash && startsWith s' "/" then 1 else 0)
      + doubleSlashes s'
  end.

(** ASCII lower-casing, the instance of [toLowerCase] used in examples. *)
Definition lowerChar (c : ascii) : ascii :=
  let n := Ascii.nat_of_ascii c in
  if (65 <=? n)%nat && (n <=? 90)%nat then Ascii.ascii_of_nat (n + 32) else c.

Fixpoint asciiLower (s : string) : string :=
  match s with
  | EmptyString => EmptyString
  | String c s' => String (lowerChar c) (asciiLower s')
  end.

End Js.

(** ** Data model *)

(** [interface Stock]. *)
Record Stock := mkStock {
  Symbol : string;
  Security : string;
  Market : string;
}.

(** A JSON [number], kept as an opaque payload. *)
Definition number := Q.

(** [interface AiResult]. *)
Record ForecastPoint := mkPoint { date : string; price : number }.
Record AiResult := mkAi { forecast : list ForecastPoint; summary : string }.

(** The body of [/api/price]: [{ close: number }]. *)
Record PriceData := mkPrice { close : number }.

(** ** Module-level helpers *)

(** [const getUnit = (market) => (market === 'KOSPI' || market === 'KOSDAQ') ? '원' : '달러'] *)
Definition getUnit (market : string) : string :=
  if String.eqb market "KOSPI" || String.eqb market "KOSDAQ" then "원" else "달러".


(** The unit rendered next to a price of the selected Stock:
    [getUnit(selected.Market)]. *)
Definition displayUnit (s : Stock) : string := getUnit (Market s).

(** The two values the module reads from its environment: the locale-free
    [String.prototype.toLowerCase] of the JavaScript engine, and the build
    time constant [import.meta.env.VITE_API_URL] ([None] is [undefined]). *)
Class Env := {
  toLowerCase : string → string;
  apiUrl : option string;
}.

(** [getApiUrl]: [if (!apiUrl || apiUrl === 'undefined') return path;
    return apiUrl.replace(/\/$/, '') + path;] *)
Definition getApiUrl `{Env} (path : string) : string :=
  match apiUrl with
  | None => path
  | Some base =>
      if Js.falsy (Some base) || String.eqb base "undefined" then path
      else Js.replaceTrailingSlash base +:+ path
  end.

(** ** Catalog loader *)

(** The arrow function mapped over the lines by [parseCSV]: [null] when
    [cols.length < 3], otherwise the first three columns. *)
Definition parseLine (line : string) : option Stock :=
  let cols := Js.split Js.comma (Js.removeAll Js.CR line) in
  match cols with
  | c0 :: c1 :: c2 :: _ => Some (mkStock c0 c1 c2)
  | _ => None
  end.

(** [parseCSV]: [csv.split('\n').slice(1).map(...).filter(Boolean)]; every
    object is truthy, so the filter removes exactly the [null]s. *)
Definition parseCSV (csv : string) : list Stock :=
  let lines := Js.split Js.LF csv in
  omap parseLine (drop 1 lines).

(** The array handed to [setAllStocks] when [Promise.all] fulfils. *)
Definition loadCatalog (us ko nyse kosdaq : string) : list Stock :=
  parseCSV us ++ parseCSV ko ++ parseCSV nyse ++ parseCSV kosdaq.

(** ** Search *)

(** The predicate of [allStocks.filter], [q] being the lower-cased query. *)
Definition matches `{Env} (q : string) (s : Stock) : bool :=
  Js.includes (toLowerCase (Symbol s)) q
  || Js.includes (toLowerCase (Security s)) q.

(** The value the search effect passes to [setResults]. *)
Definition search `{Env} (catalog : list Stock) (query : string) : list Stock :=
  if String.eqb query "" then []
  else
    let q := toLowerCase query in
    take 20 (filter (λ s, matches q s) catalog).

(** ** Promises and fetch outcomes *)

Inductive Promise (T : Type) :=
| Fulfilled (v : T)
| Rejected.
Arguments Fulfilled {T} v.
Arguments Rejected {T}.

(** What the network gives back for one request: a transport failure, or a
    response with a status and a body.  A body that is not JSON is [None]
    ([res.json()] rejects); a JSON body is taken to have the shape the
    endpoint documents. *)
Inductive FetchOutcome (T : Type) :=
| NetworkError
| Response (status : Z) (body : option T).
Arguments NetworkError {T}.
Arguments Response {T} status body.

(** [res.ok]: the status is in the range 200-299. *)
Definition ok (status : Z) : bool := (200 <=? status)%Z && (status <=? 299)%Z.

(** [p.then(f)] without a rejection handler. *)
Definition then_ {A B : Type} (p : Promise A) (f : A → Promise B) : Promise B :=
  match p with
  | Fulfilled v => f v
  | Rejected => Rejected
  end.

(** [fetch(url)] once the network has answered. *)
Definition fetched {T : Type} (o : FetchOutcome T) : Promise (Z * option T) :=
  match o with
  | NetworkError => Rejected
  | Response status body => Fulfilled (status, body)
  end.

(** [res.json()]. *)
Definition json {T : Type} (body : option T) : Promise T :=
  match body with
  | Some data => Fulfilled data
  | None => Rejected
  end.

(** [fetch(url).then(async res => { if (!res.ok) throw new Error('API Error');
    return res.json(); })] *)
Definition fetchJson {T : Type} (o : FetchOutcome T) : Promise T :=
  then_ (fetched o)
        (λ res, if negb (ok res.1) then Rejected else json res.2).

(** The outcome is one of the failures of the error taxonomy: no response,
    or a response whose status is not 2xx. *)
Definition failure {T : Type} (o : FetchOutcome T) : Prop :=
  match o with
  | NetworkError => True
  | Response status _ => ¬ (200 ≤ status ≤ 299)%Z
  end.

(** ** Component state *)

(** A request that has been dispatched and not yet settled.  [subject] is
    specification-only: the Stock whose fields were interpolated in [url]. *)
Record Request := mkRequest { url : string; subject : Stock }.

Inductive LoadStatus := Loading | Loaded | LoadFailed.

(** The eight [useState] cells, and what is in flight around them: the
    catalog [Promise.all], and the price and AI requests in dispatch order. *)
Record State := mkState {
  query : string;
  results : list Stock;
  selected : option Stock;
  allStocks : list Stock;
  latestPrice : option number;
  aiResult : option AiResult;
  loadingPrice : bool;
  loadingAi : bool;
  catalog : LoadStatus;
  pendingPrice : list Request;
  pendingAi : list Request;
}.

Definition setQuery (v : string) (s : State) : State :=
  mkState v (results s) (selected s) (allStocks s) (latestPrice s) (aiResult s)
          (loadingPrice s) (loadingAi s) (catalog s) (pendingPrice s) (pendingAi s).
Definition setResults (v : list Stock) (s : State) : State :=
  mkState (query s) v (selected s) (allStocks s) (latestPrice s) (aiResult s)
          (loadingPrice s) (loadingAi s) (catalog s) (pendingPrice s) (pendingAi s).
Definition setSelected (v : option Stock) (s : State) : State :=
  mkState (query s) (results s) v (allStocks s) (latestPrice s) (aiResult s)
          (loadingPrice s) (loadingAi s) (catalog s) (pendingPrice s) (pendingAi s).
Definition setAllStocks (v : list Stock) (s : State) : State :=
  mkState (query s) (results s) (selected s) v (latestPrice s) (aiResult s)
          (loadingPrice s) (loadingAi s) (catalog s) (pendingPrice s) (pendingAi s).
Definition setLatestPrice (v : option number) (s : State) : State :=
  mkState (query s) (results s) (selected s) (allStocks s) v (aiResult s)
          (loadingPrice s) (loadingAi s) (catalog s) (pendingPrice s) (pendingAi s).
Definition setAiResult (v : option AiResult) (s : State) : State :=
  mkState (query s) (results s) (selected s) (allStocks s) (latestPrice s) v
          (loadingPrice s) (loadingAi s) (catalog s) (pendingPrice s) (pendingAi s).
Definition setLoadingPrice (v : bool) (s : State) : State :=
  mkState (query s) (results s) (selected s) (allStocks s) (latestPrice s) (aiResult s)
          v (loadingAi s) (catalog s) (pendingPrice s) (pendingAi s).
Definition setLoadingAi (v : bool) (s : State) : State :=
  mkState (query s) (results s) (selected s) (allStocks s) (latestPrice s) (aiResult s)
          (loadingPrice s) v (catalog s) (pendingPrice s) (pendingAi s).
Definition setCatalog (v : LoadStatus) (s : State) : State :=
  mkState (query s) (results s) (selected s) (allStocks s) (latestPrice s) (aiResult s)
          (loadingPrice s) (loadingAi s) v (pendingPrice s) (pendingAi s).
Definition setPendingPrice (v : list Request) (s : State) : State :=
  mkState (query s) (results s) (selected s) (allStocks s) (latestPrice s) (aiResult s)
          (loadingPrice s) (loadingAi s) (catalog s) v (pendingAi s).
Definition setPendingAi (v : list Request) (s : State) : State :=
  mkState (query s) (results s) (selected s) (allStocks s) (latestPrice s) (aiResult s)
          (loadingPrice s) (loadingAi s) (catalog s) (pendingPrice s) v.

(** ** Effects *)

(** The search effect, dependencies [[query, allStocks]]. *)
Definition searchEffect `{Env} (s : State) : State :=
  setResults (search (allStocks s) (query s)) s.

(** The request of the price pipeline for a Stock. *)
Definition priceRequest `{Env} (sel : Stock) : Request :=
  mkRequest
    (getApiUrl ("/api/price?symbol=" +:+ Symbol sel +:+ "&market=" +:+ Market sel))
    sel.

(** The request of the AI pipeline for a Stock. *)
Definition aiRequest `{Env} (sel : Stock) : Request :=
  mkRequest
    (getApiUrl ("/api/ai?symbol=" +:+ Symbol sel +:+ "&market=" +:+ Market sel))
    sel.

(** The price effect, dependencies [[selected]]. *)
Definition priceEffect `{Env} (s : State) : State :=
  match selected s with
  | None => setAiResult None (setLatestPrice None s)
  | Some sel =>
      let s1 := setLoadingPrice true s in
      let s2 := setLatestPrice None s1 in
      setPendingPrice (pendingPrice s2 ++ [priceRequest sel]) s2
  end.

(** ** Event handlers *)

(** [onChange] of the query input. *)
Definition onChange (v : string) (s : State) : State :=
  setSelected None (setQuery v s).

(** [onClick] of a result item. *)
Definition onClick (stock : Stock) (s : State) : State :=
  setSelected (Some stock) s.

(** [handleAiAnalyze]. *)
Definition handleAiAnalyze `{Env} (s : State) : State :=
  match selected s with
  | None => s
  | Some sel =>
      let s1 := setLoadingAi true s in
      let s2 := setAiResult None s1 in
      setPendingAi (pendingAi s2 ++ [aiRequest sel]) s2
  end.

(** The continuation of the price request:
    [.then(data => setLatestPrice(data.close)).catch(() => setLatestPrice(null))
     .finally(() => setLoadingPrice(false))].  The reactions of one chain run
    as consecutive microtasks, before any other event is handled, and none
    of the cells they write is a dependency of an effect: the chain is one
    step of the machine. *)
Definition priceSettled (o : FetchOutcome PriceData) (s : State) : State :=
  let s1 :=
    match fetchJson o with
    | Fulfilled data => setLatestPrice (Some (close data)) s
    | Rejected => setLatestPrice None s
    end in
  setLoadingPrice false s1.

(** The continuation of the AI request:
    [.then(data => setAiResult(data)).catch(() => setAiResult(null))
     .finally(() => setLoadingAi(false))]. *)
Definition aiSettled (o : FetchOutcome AiResult) (s : State) : State :=
  let s1 :=
    match fetchJson o with
    | Fulfilled data => setAiResult (Some data) s
    | Rejected => setAiResult None s
    end in
  setLoadingAi false s1.

(** The continuation of [Promise.all] in the catalog effect. *)
Definition catalogLoaded (us ko nyse kosdaq : string) (s : State) : State :=
  setAllStocks (loadCatalog us ko nyse kosdaq) (setCatalog Loaded s).

(** ** What is rendered *)

(** Truthiness of an object reference or [null]. *)
Definition truthy {T : Type} (v : option T) : bool :=
  match v with
  | Some _ => true
  | None => false
  end.

(** [query && results.length > 0 && !selected]: the result list is shown. *)
Definition listVisible (s : State) : bool :=
  negb (String.eqb (query s) "")
  && (0 <? length (results s))%nat
  && negb (truthy (selected s)).

(** [selected && ...] and [disabled={loadingAi}]: the analyze button is
    shown and enabled. *)
Definition analyzeEnabled (s : State) : bool :=
  truthy (selected s) && negb (loadingAi s).

(** ** Transitions *)

Inductive Event :=
| CatalogLoaded (us ko nyse kosdaq : string)
| CatalogFailed
| Change (v : string)
| Click (i : nat)
| Analyze
| PriceResponse (i : nat) (o : FetchOutcome PriceData)
| AiResponse (i : nat) (o : FetchOutcome AiResult).

(** The handler or continuation an event runs; [None] when the event cannot
    happen in this state (the element is not rendered, the button is
    disabled, no such request is in flight). *)
Definition handle `{Env} (e : Event) (s : State) : option State :=
  match e with
  | CatalogLoaded us ko nyse kosdaq =>
      match catalog s with
      | Loading => Some (catalogLoaded us ko nyse kosdaq s)
      | _ => None
      end
  | CatalogFailed =>
      match catalog s with
      | Loading => Some (setCatalog LoadFailed s)
      | _ => None
      end
  | Change v => Some (onChange v s)
  | Click i =>
      if listVisible s then stock ← results s !! i; Some (onClick stock s)
      else None
  | Analyze =>
      if analyzeEnabled s then Some (handleAiAnalyze s) else None
  | PriceResponse i o =>
      _ ← pendingPrice s !! i;
      Some (priceSettled o (setPendingPrice (delete i (pendingPrice s)) s))
  | AiResponse i o =>
      _ ← pendingAi s !! i;
      Some (aiSettled o (setPendingAi (delete i (pendingAi s)) s))
  end.

(** Dependency comparison of the search effect: [query] is compared as a
    string, [allStocks] by reference, and the only new array is the one
    [catalogLoaded] passes to [setAllStocks]. *)
Definition searchDepsChanged (prev next : State) : bool :=
  negb (String.eqb (query prev) (query next))
  || match catalog prev, catalog next with
     | Loading, Loaded => true
     | _, _ => false
     end.

(** The three fields of two Stocks agree. *)
Definition sameStock (a b : Stock) : bool :=
  String.eqb (Symbol a) (Symbol b)
  && String.eqb (Security a) (Security b)
  && String.eqb (Market a) (Market b).

(** Dependency comparison of the price effect.  [selected] is compared by
    reference ([Object.is]); [null] equals only [null].  A handler that does
    not call [setSelected] leaves the same object in place, and no handler
    replaces one Stock by another (see [selected_through_none]): whenever
    two Stocks are compared here they are one object, which the comparison
    of their fields answers correctly. *)
Definition selectedChanged (prev next : State) : bool :=
  match selected prev, selected next with
  | None, None => false
  | Some a, Some b => negb (sameStock a b)
  | _, _ => true
  end.

(** The effects React runs after the re-render, in declaration order. *)
Definition runEffects `{Env} (prev next : State) : State :=
  let s1 := if searchDepsChanged prev next then searchEffect next else next in
  if selectedChanged prev next then priceEffect s1 else s1.

Definition step `{Env} (e : Event) (s : State) : option State :=
  next ← handle e s; Some (runEffects s next).

Fixpoint run `{Env} (es : list Event) (s : State) : option State :=
  match es with
  | [] => Some s
  | e :: es' => s' ← step e s; run es' s'
  end.

(** The initial [useState] values, with the catalog requests dispatched. *)
Definition initial : State :=
  mkState "" [] None [] None None false false Loading [] [].

(** The state after the first render: every effect has run once. *)
Definition mount `{Env} : State := priceEffect (searchEffect initial).

Definition reachable `{Env} (s : State) : Prop :=
  ∃ es, run es mount = Some s.

(** Identity of a Security: the pair (symbol, market). *)
Definition identity (s : Stock) : string * string := (Symbol s, Market s).

(** ** The specification's sentences that are compared with the code *)

(** "Contains the query as a case-insensitive substring": the lower-cased
    field is some prefix, the lower-cased query, and some suffix. *)
Definition containsIgnoringCase `{Env} (field q : string) : Prop :=
  ∃ pre post, toLowerCase field = pre +:+ toLowerCase q +:+ post.

(** The ResultSet of a state is the search of its catalog for its query. *)
Definition resultsCurrent `{Env} (s : State) : Prop :=
  results s = search (allStocks s) (query s).

(** The staleness rule in the specification's words: the response to request
    [i], dispatched for a Security that is no longer the selected one,
    updates neither the price value nor the price loading flag. *)
Definition staleResponseDiscarded `{Env}
    (s : State) (i : nat) (o : FetchOutcome PriceData) : Prop :=
  ∀ req sel s',
    pendingPrice s !! i = Some req →
    selected s = Some sel →
    identity (subject req) ≠ identity sel →
    step (PriceResponse i o) s = Some s' →
    latestPrice s' = latestPrice s ∧ loadingPrice s' = loadingPrice s.

(** Entry into [Selected] in the specification's words: both values are
    null and both fetches have been begun for the picked Security. *)
Definition selectionBeginsBothFetches `{Env} (s : State) (i : nat) : Prop :=
  ∀ stock s',
    results s !! i = Some stock →
    step (Click i) s = Some s' →
    latestPrice s' = None ∧ aiResult s' = None
    ∧ pendingPrice s' = pendingPrice s ++ [priceRequest stock]
    ∧ pendingAi s' = pendingAi s ++ [aiRequest stock].

(** The request URL in the specification's words: the path alone without a
    base; otherwise the stripped base followed by the path, and joining
    them creates no pair of slashes that was not in one of the two. *)
Definition urlJoinedWithoutDoubleSlash `{Env} (path : string) : Prop :=
  match apiUrl with
  | None => getApiUrl path = path
  | Some base =>
      getApiUrl path = Js.replaceTrailingSlash base +:+ path
      ∧ Js.doubleSlashes (getApiUrl path)
        = (Js.doubleSlashes (Js.replaceTrailingSlash base) + Js.doubleSlashes path)%nat
  end.

(** ** Invariants of the reachable states *)

(** The catalog gates everything: until it has arrived (and for good when
    its load fails) there is nothing to search, pick or request; and a
    Security is selected only out of the current ResultSet of a non-empty
    query. *)
Definition catalogGate (s : State) : Prop :=
  (catalog s ≠ Loaded →
   allStocks s = [] ∧ results s = [] ∧ selected s = None
   ∧ pendingPrice s = [] ∧ pendingAi s = [])
  ∧ (∀ st, selected s = Some st →
       st ∈ results s ∧ query s ≠ "" ∧ catalog s = Loaded).

(** Every request in flight was built by the component for a Security of
    the catalog. *)
Definition requestsFromCatalog `{Env} (s : State) : Prop :=
  Forall (λ r, subject r ∈ allStocks s ∧ r = priceRequest (subject r))
         (pendingPrice s)
  ∧ Forall (λ r, subject r ∈ allStocks s ∧ r = aiRequest (subject r))
           (pendingAi s).

(** How the loading flags follow the requests in flight: the price flag is
    down when no price request is pending; the AI flag is up exactly while
    the one AI request is pending. *)
Definition loadingTracksPending (s : State) : Prop :=
  (pendingPrice s = [] → loadingPrice s = false)
  ∧ (loadingAi s = true ∧ length (pendingAi s) = 1
     ∨ loadingAi s = false ∧ pendingAi s = []).

Definition coherent `{Env} (s : State) : Prop :=
  resultsCurrent s ∧ catalogGate s ∧ requestsFromCatalog s
  ∧ loadingTracksPending s.

(** The query matches the Stock, case ignored, in its symbol or its name. *)
Definition found `{Env} (q : string) (st : Stock) : Prop :=
  containsIgnoringCase (Symbol st) q ∨ containsIgnoringCase (Security st) q.

(** ['&'], the separator of the query parameters. *)
Definition ampersand : ascii := "&"%char.

(** ** Sample data *)

Definition asciiEnv (base : option string) : Env :=
  {| toLowerCase := Js.asciiLower; apiUrl := base |}.

Definition crlf (line : string) : string := line +:+ String Js.CR "".

Definition usCsv : string :=
  Js.join Js.LF
    ["Symbol,Security,Market"; crlf "AAPL,Apple Inc.,NASDAQ,extra";
     crlf "bad,row"; ""].

Definition koCsv : string :=
  Js.join Js.LF ["Symbol,Security,Market"; "005930,Samsung Electronics,KOSPI"; ""].

Definition apple : Stock := mkStock "AAPL" "Apple Inc." "NASDAQ".
Definition samsung : Stock := mkStock "005930" "Samsung Electronics" "KOSPI".

Definition applePrice : FetchOutcome PriceData :=
  Response 200 (Some (mkPrice (371 # 2))).

Definition sampleAi : AiResult :=
  mkAi [mkPoint "2025-01-02" (190 # 1)] "up".

(** Catalog loaded, "app" typed. *)
Definition toSearching : list Event :=
  [CatalogLoaded usCsv koCsv "" ""; Change "app"].

(** ... Apple picked, the box edited to "sam", Samsung picked. *)
Definition toSecondPick : list Event :=
  toSearching ++ [Click 0; Change "sam"; Click 0].

(** ... Apple picked and analyze pressed. *)
Definition toAnalyzing : list Event :=
  toSearching ++ [Click 0; Analyze].

Definition searching : State :=
  mkState "app" [apple] None [apple; samsung] None None false false Loaded [] [].

Definition secondPick : State :=
  mkState "sam" [samsung] (Some samsung) [apple; samsung] None None true false
          Loaded
          [mkRequest "/api/price?symbol=AAPL&market=NASDAQ" apple;
           mkRequest "/api/price?symbol=005930&market=KOSPI" samsung]
          [].

Definition analyzing : State :=
  mkState "app" [apple] (Some apple) [apple; samsung] None None true true
          Loaded
          [mkRequest "/api/price?symbol=AAPL&market=NASDAQ" apple]
          [mkRequest "/api/ai?symbol=AAPL&market=NASDAQ" apple].

(** A Stock whose symbol holds a parameter separator, and the Stock its
    price URL is mistaken for. *)
Definition oddSymbol : Stock := mkStock "X&market=Y" "Odd" "Z".
Definition oddMarket : Stock := mkStock "X" "Odd" "Y&market=Z".

(** * Properties *)

(** ** Facts about the string primitives *)

Lemma append_cons (c : ascii) (a b : string) :
  String c a +:+ b = String c (a +:+ b).
Proof. reflexivity. Qed.

Lemma append_nil_l (b : string) : "" +:+ b = b.
Proof. reflexivity. Qed.

Lemma append_assoc (a b c : string) : (a +:+ b) +:+ c = a +:+ (b +:+ c).
Proof.
  induction a as [|x a IH]; [reflexivity |].
  rewrite !append_cons. f_equal. exact IH.
Qed.

Lemma append_empty_r (a : string) : a +:+ "" = a.
Proof.
  induction a as [|x a IH]; [reflexivity |].
  rewrite append_cons. f_equal. exact IH.
Qed.

Lemma startsWith_spec (s q : string) :
  Js.startsWith s q = true ↔ ∃ post, s = q +:+ post.
Proof.
  revert s; induction q as [|a q IH]; intros s; simpl.
  - split; [intros _; exists s; reflexivity | done].
  - destruct s as [|b s].
    + split; [done | intros [post Hp]; discriminate Hp].
    + rewrite andb_true_iff, Ascii.eqb_eq, IH. split.
      * intros [-> [post ->]]. exists post. reflexivity.
      * intros [post Hp]. rewrite append_cons in Hp.
        injection Hp as -> ->. eauto.
Qed.

Lemma includes_spec (s q : string) :
  Js.includes s q = true ↔ ∃ pre post, s = pre +:+ q +:+ post.
Proof.
  induction s as [|c s IH].
  - cbn [Js.includes]. rewrite orb_false_r, startsWith_spec. split.
    + intros [post ->]. exists "", post. reflexivity.
    + intros [pre [post Hp]].
      destruct pre; [exists post; exact Hp | discriminate Hp].
  - cbn [Js.includes]. rewrite orb_true_iff, startsWith_spec, IH. split.
    + intros [[post ->] | [pre [post ->]]].
      * exists "", post. reflexivity.
      * exists (String c pre), post. reflexivity.
    + intros [pre [post Hp]]. destruct pre as [|d pre].
      * left. exists post. exact Hp.
      * right. rewrite append_cons in Hp. injection Hp as -> ->.
        exists pre, post. reflexivity.
Qed.

Lemma split_lacks (c : ascii) (a : string) :
  Js.lacks c a = true → Js.split c a = [a].
Proof.
  induction a as [|d a IH]; simpl; [done |].
  rewrite andb_true_iff, negb_true_iff. intros [-> Ha].
  by rewrite (IH Ha).
Qed.

Lemma split_app_sep (c : ascii) (a b : string) :
  Js.lacks c a = true → Js.split c (a +:+ String c b) = a :: Js.split c b.
Proof.
  induction a as [|d a IH].
  - intros _. rewrite append_nil_l. simpl. by rewrite Ascii.eqb_refl.
  - simpl. rewrite andb_true_iff, negb_true_iff. intros [Hd Ha].
    rewrite ?append_cons. simpl. by rewrite Hd, (IH Ha).
Qed.

Lemma split_join (c : ascii) (rows : list string) :
  rows ≠ [] → Forall (λ r, Js.lacks c r = true) rows →
  Js.split c (Js.join c rows) = rows.
Proof.
  induction rows as [|r rows IH]; [done |]. intros _ Hall.
  apply Forall_cons in Hall as [Hr Hall].
  destruct rows as [|r' rows].
  - simpl. by apply split_lacks.
  - change (Js.join c (r :: r' :: rows))
      with (r +:+ String c (Js.join c (r' :: rows))).
    rewrite split_app_sep by done. f_equal. by apply IH.
Qed.

Lemma removeAll_app (c : ascii) (a b : string) :
  Js.removeAll c (a +:+ b) = Js.removeAll c a +:+ Js.removeAll c b.
Proof.
  induction a as [|d a IH]; [reflexivity |].
  rewrite append_cons. simpl.
  destruct (Ascii.eqb d c); [exact IH |].
  rewrite append_cons. f_equal. exact IH.
Qed.

Lemma removeAll_lacks (c : ascii) (a : string) :
  Js.lacks c (Js.removeAll c a) = true.
Proof.
  induction a as [|d a IH]; simpl; [done |].
  destruct (Ascii.eqb d c) eqn:E; simpl; [done | by rewrite E, IH].
Qed.

Lemma removeAll_keeps_lacks (c d : ascii) (a : string) :
  Js.lacks d a = true → Js.lacks d (Js.removeAll c a) = true.
Proof.
  induction a as [|x a IH]; simpl; [done |].
  rewrite andb_true_iff. intros [Hx Ha].
  destruct (Ascii.eqb x c); simpl; [by apply IH | by rewrite Hx, IH].
Qed.

Lemma replaceTrailingSlash_slash (b : string) :
  Js.replaceTrailingSlash (b +:+ "/") = b.
Proof.
  induction b as [|c b IH]; [reflexivity |].
  rewrite append_cons. cbn [Js.replaceTrailingSlash]. rewrite IH.
  destruct b; reflexivity.
Qed.

Lemma replaceTrailingSlash_other (s : string) :
  Js.endsWithChar Js.slash s = false → Js.replaceTrailingSlash s = s.
Proof.
  induction s as [|c s IH]; [done |].
  destruct s as [|d s].
  - cbn. by intros ->.
  - intros H. cbn [Js.replaceTrailingSlash]. f_equal. by apply IH.
Qed.

Lemma endsWithChar_snoc (c : ascii) (s : string) :
  Js.endsWithChar c s = true ↔ ∃ b, s = b +:+ String c "".
Proof.
  induction s as [|d s IH]; simpl.
  - split; [done | intros [[|? ?] Hb]; discriminate Hb].
  - destruct s as [|e s].
    + rewrite Ascii.eqb_eq. split.
      * intros ->. exists "". reflexivity.
      * intros [[|x [|y b]] Hb]; cbv [String.append] in Hb; by inversion Hb.
    + rewrite IH. split.
      * intros [b ->]. exists (String d b). reflexivity.
      * intros [[|x b] Hb]; [discriminate Hb |].
        rewrite append_cons in Hb. injection Hb as -> Hb. by exists b.
Qed.

Lemma stripped_no_trailing_slash (base : string) :
  (∀ b, base ≠ b +:+ "//") →
  Js.endsWithChar Js.slash (Js.replaceTrailingSlash base) = false.
Proof.
  intros Hno.
  destruct (Js.endsWithChar Js.slash base) eqn:E.
  - apply endsWithChar_snoc in E as [b ->].
    change (String Js.slash "") with "/". rewrite replaceTrailingSlash_slash.
    destruct (Js.endsWithChar Js.slash b) eqn:E'; [| done].
    apply endsWithChar_snoc in E' as [b' ->]. exfalso. apply (Hno b').
    by rewrite append_assoc.
  - by rewrite replaceTrailingSlash_other.
Qed.

Lemma doubleSlashes_app (a b : string) :
  Js.endsWithChar Js.slash a = false →
  Js.doubleSlashes (a +:+ b) = (Js.doubleSlashes a + Js.doubleSlashes b)%nat.
Proof.
  induction a as [|c a IH]; [done |].
  intros H. rewrite append_cons. cbn [Js.doubleSlashes].
  destruct a as [|d a].
  - cbn in H. rewrite append_nil_l, H. reflexivity.
  - rewrite IH by exact H. rewrite append_cons.
    cbn [Js.startsWith]. lia.
Qed.

Lemma endsWith_spec (s q : string) :
  Js.endsWith s q = true ↔ ∃ b, s = b +:+ q.
Proof.
  induction s as [|c s IH]; cbn [Js.endsWith].
  - rewrite orb_false_r, String.eqb_eq. split.
    + intros <-. exists "". reflexivity.
    + intros [[|x b] Hb]; [exact Hb | discriminate Hb].
  - rewrite orb_true_iff, String.eqb_eq, IH. split.
    + intros [<- | [b ->]]; [exists "" | exists (String c b)]; reflexivity.
    + intros [[|x b] Hb]; [left; exact Hb | right].
      rewrite append_cons in Hb. injection Hb as -> ->. by exists b.
Qed.

Lemma endsWith_char (c : ascii) (s : string) :
  Js.endsWith s (String c "") = Js.endsWithChar c s.
Proof.
  apply eq_true_iff_eq. by rewrite endsWith_spec, endsWithChar_snoc.
Qed.

Lemma no_double_suffix (base : string) :
  Js.endsWith base "//" = false → ∀ b, base ≠ b +:+ "//".
Proof.
  intros H b ->. apply not_true_iff_false in H. apply H.
  apply endsWith_spec. by exists b.
Qed.

(** ** Examples *)

Example getUnit_kospi : getUnit "KOSPI" = "원".
Proof. reflexivity. Qed.

Example getUnit_nasdaq : getUnit "NASDAQ" = "달러".
Proof. reflexivity. Qed.

Example split_trailing : Js.split Js.comma "a,,b," = ["a"; ""; "b"; ""].
Proof. reflexivity. Qed.

Example strip_one_slash : Js.replaceTrailingSlash "http://h//" = "http://h/".
Proof. reflexivity. Qed.

Example includes_inside : Js.includes "apple inc." "le i" = true.
Proof. reflexivity. Qed.

Example parse_us : parseCSV usCsv = [apple].
Proof. reflexivity. Qed.

Example literal_undefined :
  @getApiUrl (asciiEnv (Some "undefined")) "/api/ai" = "/api/ai".
Proof. reflexivity. Qed.

(** ** Unit formatting *)

(** C8. The display unit depends on the market field alone and is defined for
    every market string; it is the won sign exactly for the markets KOSPI
    and KOSDAQ and the dollar word for every other market, and these are
    its only two values. *)
Theorem getUnit_two_outcomes (market : string) :
  (getUnit market = "원" ↔ market = "KOSPI" ∨ market = "KOSDAQ")
  ∧ (getUnit market = "달러" ↔ ¬ (market = "KOSPI" ∨ market = "KOSDAQ"))
  ∧ (getUnit market = "원" ∨ getUnit market = "달러")
  ∧ (∀ s1 s2 : Stock, Market s1 = Market s2 → displayUnit s1 = displayUnit s2).
Proof.
  assert (Hd : ∀ s1 s2, Market s1 = Market s2 → displayUnit s1 = displayUnit s2)
    by (intros s1 s2 E; unfold displayUnit; by rewrite E).
  unfold getUnit.
  destruct (String.eqb_spec market "KOSPI") as [-> | H1];
    [| destruct (String.eqb_spec market "KOSDAQ") as [-> | H2]]; simpl;
    (split; [| split; [| split; [| exact Hd]]]);
    intuition (try discriminate; try congruence).
Qed.

(** ** Request URLs *)

(** C9 (amended). Without a base URL, and also when the base is the empty
    string or the literal text undefined, the request URL is the path
    unchanged.  With any other base the URL is the base, less one final
    slash if it ends with one, followed by the path; when the base does not
    end with two slashes, joining the two creates no double slash. *)
Theorem getApiUrl_spec `{Env} (path : string) :
  (Js.falsy apiUrl = true ∨ apiUrl = Some "undefined" → getApiUrl path = path)
  ∧ (∀ base, apiUrl = Some base → base ≠ "" → base ≠ "undefined" →
       getApiUrl path = Js.replaceTrailingSlash base +:+ path
       ∧ (∀ b, base = b +:+ "/" → Js.replaceTrailingSlash base = b)
       ∧ (Js.endsWith base "/" = false → Js.replaceTrailingSlash base = base)
       ∧ (Js.endsWith base "//" = false →
          Js.doubleSlashes (getApiUrl path)
          = (Js.doubleSlashes (Js.replaceTrailingSlash base)
             + Js.doubleSlashes path)%nat)).
Proof.
  unfold getApiUrl. split.
  - intros [Hf | ->].
    + destruct apiUrl as [base|]; [| reflexivity].
      simpl in Hf. simpl. by rewrite Hf.
    + reflexivity.
  - intros base -> Hne Hnu. simpl.
    apply String.eqb_neq in Hne, Hnu. rewrite Hne, Hnu. simpl.
    split; [reflexivity |]. split; [| split].
    + intros b ->. apply replaceTrailingSlash_slash.
    + intros Hs. apply replaceTrailingSlash_other.
      by rewrite <- endsWith_char.
    + intros Hd. apply doubleSlashes_app, stripped_no_trailing_slash.
      by apply no_double_suffix.
Qed.

Lemma getApiUrl_spec_witness :
  @getApiUrl (asciiEnv (Some "http://h/")) "/api/price?symbol=AAPL&market=NASDAQ"
  = "http://h/api/price?symbol=AAPL&market=NASDAQ"
  ∧ Js.doubleSlashes
      (@getApiUrl (asciiEnv (Some "http://h/")) "/api/price?symbol=AAPL&market=NASDAQ")
    = 1%nat.
Proof.
  destruct (@getApiUrl_spec (asciiEnv (Some "http://h/"))
              "/api/price?symbol=AAPL&market=NASDAQ") as [_ Hb].
  destruct (Hb "http://h/") as (Hurl & _ & _ & Hd);
    [reflexivity | discriminate | discriminate |].
  split; [exact Hurl | apply Hd; reflexivity].
Defined.

(** The claim as written fails for a base that ends with two slashes: one
    is removed, the other meets the leading slash of the path. *)
Lemma getApiUrl_double_slash :
  @getApiUrl (asciiEnv (Some "http://h//")) "/api/price?symbol=AAPL&market=NASDAQ"
  = "http://h//api/price?symbol=AAPL&market=NASDAQ"
  ∧ ¬ @urlJoinedWithoutDoubleSlash (asciiEnv (Some "http://h//"))
        "/api/price?symbol=AAPL&market=NASDAQ".
Proof.
  split; [reflexivity |].
  unfold urlJoinedWithoutDoubleSlash. simpl. intros [_ H].
  vm_compute in H. discriminate H.
Qed.

(** ** What the effects leave alone *)

Ltac effects_cases p n :=
  unfold runEffects, priceEffect, searchEffect;
  destruct (searchDepsChanged p n), (selectedChanged p n); simpl;
  try (destruct (selected n) eqn:?); simpl.

Lemma runEffects_frame `{Env} (p n : State) :
  query (runEffects p n) = query n
  ∧ selected (runEffects p n) = selected n
  ∧ allStocks (runEffects p n) = allStocks n
  ∧ loadingAi (runEffects p n) = loadingAi n
  ∧ catalog (runEffects p n) = catalog n
  ∧ pendingAi (runEffects p n) = pendingAi n.
Proof. effects_cases p n; repeat split; assumption. Qed.

Lemma runEffects_results `{Env} (p n : State) :
  results (runEffects p n)
  = if searchDepsChanged p n then search (allStocks n) (query n) else results n.
Proof. effects_cases p n; reflexivity. Qed.

Lemma sameStock_refl (a : Stock) : sameStock a a = true.
Proof. unfold sameStock. by rewrite !String.eqb_refl. Qed.

Lemma selectedChanged_same (p n : State) :
  selected n = selected p → selectedChanged p n = false.
Proof.
  unfold selectedChanged. intros ->.
  destruct (selected p); [by rewrite sameStock_refl | reflexivity].
Qed.

Lemma runEffects_same_selection `{Env} (p n : State) :
  query n = query p → catalog n = catalog p → selected n = selected p →
  runEffects p n = n.
Proof.
  intros Hq Hc Hs. unfold runEffects, searchDepsChanged.
  rewrite (selectedChanged_same p n Hs), Hq, Hc, String.eqb_refl.
  by destruct (catalog p).
Qed.

(** ** Catalog loader *)

Lemma parseLine_fields (line : string) :
  parseLine line = None
  ↔ (length (Js.split Js.comma (Js.removeAll Js.CR line)) < 3)%nat.
Proof.
  unfold parseLine.
  destruct (Js.split Js.comma (Js.removeAll Js.CR line)) as [|a [|b [|c l]]];
    simpl; split; intros; try done; lia.
Qed.

Lemma parseLine_trailing_cr (line : string) :
  parseLine (line +:+ String Js.CR "") = parseLine line.
Proof.
  unfold parseLine. rewrite removeAll_app. simpl.
  by rewrite append_empty_r.
Qed.

Lemma removeAll_cr_comma (a b : string) :
  Js.removeAll Js.CR (a +:+ "," +:+ b)
  = Js.removeAll Js.CR a +:+ String Js.comma (Js.removeAll Js.CR b).
Proof. by rewrite removeAll_app. Qed.

Lemma parseLine_three (f0 f1 f2 : string) :
  Js.lacks Js.comma f0 = true → Js.lacks Js.comma f1 = true →
  Js.lacks Js.comma f2 = true →
  parseLine (f0 +:+ "," +:+ f1 +:+ "," +:+ f2)
  = Some (mkStock (Js.removeAll Js.CR f0) (Js.removeAll Js.CR f1)
                  (Js.removeAll Js.CR f2)).
Proof.
  intros H0 H1 H2. unfold parseLine.
  rewrite !removeAll_cr_comma.
  rewrite !split_app_sep by (by apply removeAll_keeps_lacks).
  by rewrite split_lacks by (by apply removeAll_keeps_lacks).
Qed.

Lemma parseLine_more (f0 f1 f2 rest : string) :
  Js.lacks Js.comma f0 = true → Js.lacks Js.comma f1 = true →
  Js.lacks Js.comma f2 = true →
  parseLine (f0 +:+ "," +:+ f1 +:+ "," +:+ f2 +:+ "," +:+ rest)
  = Some (mkStock (Js.removeAll Js.CR f0) (Js.removeAll Js.CR f1)
                  (Js.removeAll Js.CR f2)).
Proof.
  intros H0 H1 H2. unfold parseLine.
  rewrite !removeAll_cr_comma.
  rewrite !split_app_sep by (by apply removeAll_keeps_lacks).
  destruct (Js.split Js.comma (Js.removeAll Js.CR rest)); reflexivity.
Qed.

Lemma parseLine_short (f0 f1 : string) :
  Js.lacks Js.comma f0 = true → Js.lacks Js.comma f1 = true →
  parseLine f0 = None ∧ parseLine (f0 +:+ "," +:+ f1) = None.
Proof.
  intros H0 H1. unfold parseLine. split.
  - by rewrite split_lacks by (by apply removeAll_keeps_lacks).
  - rewrite removeAll_cr_comma.
    rewrite split_app_sep by (by apply removeAll_keeps_lacks).
    by rewrite split_lacks by (by apply removeAll_keeps_lacks).
Qed.

Lemma parseCSV_lines (header : string) (rows : list string) :
  Js.lacks Js.LF header = true →
  Forall (λ r, Js.lacks Js.LF r = true) rows →
  parseCSV (Js.join Js.LF (header :: rows)) = omap parseLine rows.
Proof.
  intros Hh Hr. unfold parseCSV.
  rewrite split_join; [reflexivity | done | by constructor].
Qed.

(** C7. A source whose lines are a header and then rows parses to the rows
    in their order, the header left out, each row mapped on its own: every
    carriage return is removed (so one at the end of the row makes no
    difference and no parsed field contains one), the row is split at its
    commas, rows of one or two fields are dropped and rows of three or more
    fields give a Stock of the first three.  When the four sources have
    arrived the catalog is the parsed rows of the first source, then of the
    second, the third and the fourth. *)
Theorem catalog_parsing `{Env} :
  (∀ header rows,
     Js.lacks Js.LF header = true →
     Forall (λ r, Js.lacks Js.LF r = true) rows →
     parseCSV (Js.join Js.LF (header :: rows)) = omap parseLine rows)
  ∧ (∀ line, parseLine (line +:+ String Js.CR "") = parseLine line)
  ∧ (∀ line, parseLine line = None
             ↔ (length (Js.split Js.comma (Js.removeAll Js.CR line)) < 3)%nat)
  ∧ (∀ f0 f1,
       Js.lacks Js.comma f0 = true → Js.lacks Js.comma f1 = true →
       parseLine f0 = None ∧ parseLine (f0 +:+ "," +:+ f1) = None)
  ∧ (∀ f0 f1 f2 rest,
       Js.lacks Js.comma f0 = true → Js.lacks Js.comma f1 = true →
       Js.lacks Js.comma f2 = true →
       let stock :=
         mkStock (Js.removeAll Js.CR f0) (Js.removeAll Js.CR f1)
                 (Js.removeAll Js.CR f2) in
       parseLine (f0 +:+ "," +:+ f1 +:+ "," +:+ f2) = Some stock
       ∧ parseLine (f0 +:+ "," +:+ f1 +:+ "," +:+ f2 +:+ "," +:+ rest) = Some stock
       ∧ Js.lacks Js.CR (Symbol stock) = true
       ∧ Js.lacks Js.CR (Security stock) = true
       ∧ Js.lacks Js.CR (Market stock) = true)
  ∧ (∀ us ko nyse kosdaq s,
       catalog s = Loading →
       ∃ s', step (CatalogLoaded us ko nyse kosdaq) s = Some s'
             ∧ allStocks s'
               = parseCSV us ++ parseCSV ko ++ parseCSV nyse ++ parseCSV kosdaq).
Proof.
  split_and!.
  - apply parseCSV_lines.
  - apply parseLine_trailing_cr.
  - apply parseLine_fields.
  - apply parseLine_short.
  - intros f0 f1 f2 rest H0 H1 H2 stock. split_and!.
    + by apply parseLine_three.
    + by apply parseLine_more.
    + apply removeAll_lacks.
    + apply removeAll_lacks.
    + apply removeAll_lacks.
  - intros us ko nyse kosdaq s Hc.
    unfold step. simpl. rewrite Hc. simpl. eexists. split; [reflexivity |].
    by rewrite (proj1 (proj2 (proj2 (runEffects_frame _ _)))).
Qed.

Lemma catalog_parsing_witness :
  parseCSV usCsv = [apple]
  ∧ parseLine "AAPL,Apple Inc.,NASDAQ,extra" = Some apple
  ∧ parseLine "bad,row" = None
  ∧ ∃ s', @step (asciiEnv None) (CatalogLoaded usCsv koCsv "" "") initial = Some s'
          ∧ allStocks s' = [apple; samsung].
Proof.
  destruct (@catalog_parsing (asciiEnv None))
    as (Hlines & _ & _ & Hshort & Hlong & Hload).
  split; [| split; [| split]].
  - apply (Hlines "Symbol,Security,Market"
             [crlf "AAPL,Apple Inc.,NASDAQ,extra"; crlf "bad,row"; ""]);
      [reflexivity | repeat constructor].
  - apply (Hlong "AAPL" "Apple Inc." "NASDAQ" "extra"); reflexivity.
  - apply (Hshort "bad" "row"); reflexivity.
  - apply (Hload usCsv koCsv "" "" initial). reflexivity.
Defined.

(** ** Search *)

Lemma matches_spec `{Env} (q : string) (s : Stock) :
  matches (toLowerCase q) s = true
  ↔ containsIgnoringCase (Symbol s) q ∨ containsIgnoringCase (Security s) q.
Proof.
  unfold matches, containsIgnoringCase.
  by rewrite orb_true_iff, !includes_spec.
Qed.

Lemma run_invariant `{Env} (P : State → Prop) :
  (∀ e s s', P s → step e s = Some s' → P s') →
  ∀ es s s', P s → run es s = Some s' → P s'.
Proof.
  intros Hstep es. induction es as [|e es IH]; intros s s' Hs Hrun.
  - simpl in Hrun. by injection Hrun as <-.
  - simpl in Hrun. destruct (step e s) as [s1|] eqn:E; [| discriminate Hrun].
    simpl in Hrun. eapply IH; [| exact Hrun]. by eapply Hstep.
Qed.

Lemma step_resultsCurrent `{Env} (e : Event) (s s' : State) :
  resultsCurrent s → step e s = Some s' → resultsCurrent s'.
Proof.
  unfold resultsCurrent, step. intros Inv Hstep.
  destruct (handle e s) as [n|] eqn:Hn; [| discriminate Hstep].
  injection Hstep as <-.
  destruct (runEffects_frame s n) as (-> & _ & -> & _).
  rewrite runEffects_results.
  destruct (searchDepsChanged s n) eqn:E; [reflexivity |].
  unfold searchDepsChanged in E.
  destruct e; simpl in Hn.
  - destruct (catalog s) eqn:Hc; try discriminate Hn. injection Hn as <-.
    simpl in E. rewrite orb_true_r in E. discriminate E.
  - destruct (catalog s); try discriminate Hn. by injection Hn as <-.
  - injection Hn as <-. simpl in *.
    apply orb_false_iff in E as [E _].
    apply negb_false_iff, String.eqb_eq in E. by rewrite <- E.
  - destruct (listVisible s); [| discriminate Hn].
    destruct (results s !! i); [| discriminate Hn]. by injection Hn as <-.
  - destruct (analyzeEnabled s); [| discriminate Hn]. injection Hn as <-.
    unfold handleAiAnalyze. by destruct (selected s).
  - destruct (pendingPrice s !! i); [| discriminate Hn]. injection Hn as <-.
    unfold priceSettled. by destruct (fetchJson o).
  - destruct (pendingAi s !! i); [| discriminate Hn]. injection Hn as <-.
    unfold aiSettled. by destruct (fetchJson o).
Qed.

Lemma reachable_resultsCurrent `{Env} (s : State) :
  reachable s → resultsCurrent s.
Proof.
  intros [es Hes]. eapply (run_invariant resultsCurrent); [| | exact Hes].
  - intros e s1 s2. apply step_resultsCurrent.
  - reflexivity.
Qed.

(** C3. For a non-empty query, every Security of the ResultSet contains the
    query, compared in lower case, inside its symbol or inside its name;
    the ResultSet has at most 20 elements; and it is a subsequence of the
    catalog, so its elements are in catalog order.  The ResultSet of every
    reachable state is this search of its catalog for its query. *)
Theorem search_results_spec `{Env} (catalog : list Stock) (q : string) :
  q ≠ "" →
  Forall (λ s, containsIgnoringCase (Symbol s) q
               ∨ containsIgnoringCase (Security s) q) (search catalog q)
  ∧ length (search catalog q) ≤ 20
  ∧ search catalog q `sublist_of` catalog
  ∧ (∀ s, reachable s → allStocks s = catalog → query s = q →
          results s = search catalog q).
Proof.
  intros Hq. unfold search. apply String.eqb_neq in Hq. rewrite Hq.
  split; [| split; [| split]].
  - apply Forall_take, Forall_forall. intros x Hx.
    apply list_elem_of_filter in Hx as [Hx _].
    apply matches_spec. by apply Is_true_true.
  - rewrite length_take. lia.
  - etrans; [apply sublist_take | apply sublist_filter].
  - intros s Hs <- <-. rewrite (reachable_resultsCurrent s Hs).
    unfold search. by rewrite Hq.
Qed.

Lemma search_results_spec_witness :
  @search (asciiEnv None) [apple; samsung] "APP" = [apple]
  ∧ Forall (λ s, @containsIgnoringCase (asciiEnv None) (Symbol s) "APP"
                 ∨ @containsIgnoringCase (asciiEnv None) (Security s) "APP")
           (@search (asciiEnv None) [apple; samsung] "APP")
  ∧ length (@search (asciiEnv None) [apple; samsung] "APP") ≤ 20
  ∧ @search (asciiEnv None) [apple; samsung] "APP" `sublist_of` [apple; samsung].
Proof.
  destruct (@search_results_spec (asciiEnv None) [apple; samsung] "APP")
    as (Hall & Hlen & Hsub & _); [discriminate |].
  split; [reflexivity |]. split; [exact Hall |]. split; [exact Hlen | exact Hsub].
Defined.

(** C6. Whatever the catalog holds, the search effect leaves an empty
    ResultSet when the query is the empty string, and in every reachable
    state with an empty query the ResultSet is empty. *)
Theorem empty_query_empty_results `{Env} (s : State) :
  query s = "" →
  search (allStocks s) (query s) = []
  ∧ results (searchEffect s) = []
  ∧ (reachable s → results s = []).
Proof.
  intros Hq.
  assert (Hs : search (allStocks s) (query s) = [])
    by (unfold search; by rewrite Hq).
  split; [exact Hs |]. split; [exact Hs |].
  intros Hr. by rewrite (reachable_resultsCurrent s Hr).
Qed.

Lemma empty_query_empty_results_witness :
  query (setQuery "" searching) = ""
  ∧ allStocks (setQuery "" searching) = [apple; samsung]
  ∧ results (@searchEffect (asciiEnv None) (setQuery "" searching)) = [].
Proof.
  split; [reflexivity |]. split; [reflexivity |].
  apply (@empty_query_empty_results (asciiEnv None) (setQuery "" searching)).
  reflexivity.
Defined.

(** ** Transitions of the machine, event by event *)

Lemma step_change `{Env} (v : string) (s : State) :
  step (Change v) s = Some (runEffects s (onChange v s)).
Proof. reflexivity. Qed.

Lemma step_click `{Env} (i : nat) (stock : Stock) (s : State) :
  listVisible s = true → results s !! i = Some stock →
  selected s = None
  ∧ step (Click i) s = Some (priceEffect (onClick stock s)).
Proof.
  intros Hv Hi.
  assert (Hsel : selected s = None).
  { unfold listVisible in Hv. destruct (selected s); [| reflexivity].
    simpl in Hv. by rewrite andb_false_r in Hv. }
  split; [exact Hsel |].
  unfold step. simpl. rewrite Hv, Hi. simpl. f_equal.
  unfold runEffects, searchDepsChanged, selectedChanged. simpl.
  rewrite Hsel, String.eqb_refl. by destruct (catalog s).
Qed.

Lemma step_analyze `{Env} (s : State) :
  analyzeEnabled s = true → step Analyze s = Some (handleAiAnalyze s).
Proof.
  intros Hen. unfold step. simpl. rewrite Hen. simpl. f_equal.
  apply runEffects_same_selection;
    unfold handleAiAnalyze; by destruct (selected s) eqn:E.
Qed.

Lemma step_price_response `{Env} (i : nat) (req : Request)
    (o : FetchOutcome PriceData) (s : State) :
  pendingPrice s !! i = Some req →
  step (PriceResponse i o) s
  = Some (priceSettled o (setPendingPrice (delete i (pendingPrice s)) s)).
Proof.
  intros Hi. unfold step. simpl. rewrite Hi. simpl. f_equal.
  apply runEffects_same_selection;
    unfold priceSettled; by destruct (fetchJson o).
Qed.

Lemma step_ai_response `{Env} (i : nat) (req : Request)
    (o : FetchOutcome AiResult) (s : State) :
  pendingAi s !! i = Some req →
  step (AiResponse i o) s
  = Some (aiSettled o (setPendingAi (delete i (pendingAi s)) s)).
Proof.
  intros Hi. unfold step. simpl. rewrite Hi. simpl. f_equal.
  apply runEffects_same_selection;
    unfold aiSettled; by destruct (fetchJson o).
Qed.

Lemma handle_selected `{Env} (e : Event) (s n : State) :
  handle e s = Some n →
  match e with
  | Change _ => selected n = None
  | Click _ => selected s = None
  | _ => selected n = selected s
  end.
Proof.
  destruct e; simpl; intros Hn.
  - destruct (catalog s); try discriminate Hn. by injection Hn as <-.
  - destruct (catalog s); try discriminate Hn. by injection Hn as <-.
  - by injection Hn as <-.
  - unfold listVisible in Hn. destruct (selected s); [| reflexivity].
    simpl in Hn. rewrite andb_false_r in Hn. discriminate Hn.
  - destruct (analyzeEnabled s); [| discriminate Hn]. injection Hn as <-.
    unfold handleAiAnalyze. by destruct (selected s) eqn:E.
  - destruct (pendingPrice s !! i); [| discriminate Hn]. injection Hn as <-.
    unfold priceSettled. by destruct (fetchJson o).
  - destruct (pendingAi s !! i); [| discriminate Hn]. injection Hn as <-.
    unfold aiSettled. by destruct (fetchJson o).
Qed.

(** No transition replaces one selected Stock by another: the selection is
    kept, or it was none, or it becomes none. *)
Lemma selected_through_none `{Env} (e : Event) (s s' : State) :
  step e s = Some s' →
  selected s' = selected s ∨ selected s = None ∨ selected s' = None.
Proof.
  unfold step. intros Hstep.
  destruct (handle e s) as [n|] eqn:Hn; [| discriminate Hstep].
  injection Hstep as <-.
  destruct (runEffects_frame s n) as (_ & -> & _).
  apply handle_selected in Hn. destruct e; auto.
Qed.

Lemma fetchJson_failure {T : Type} (o : FetchOutcome T) :
  failure o → fetchJson o = Rejected.
Proof.
  destruct o as [|status body]; [reflexivity |].
  unfold failure, fetchJson, fetched, then_, ok. simpl. intros Hf.
  destruct (200 <=? status)%Z eqn:E1; [| reflexivity].
  destruct (status <=? 299)%Z eqn:E2; [| reflexivity].
  exfalso. apply Hf. lia.
Qed.

Lemma fetchJson_success {T : Type} (status : Z) (data : T) :
  (200 ≤ status ≤ 299)%Z → fetchJson (Response status (Some data)) = Fulfilled data.
Proof.
  intros [H1 H2]. unfold fetchJson, fetched, then_, ok. simpl.
  apply Z.leb_le in H1, H2. by rewrite H1, H2.
Qed.

Example reach_searching : @run (asciiEnv None) toSearching (@mount (asciiEnv None)) = Some searching.
Proof. reflexivity. Qed.

Example reach_secondPick : @run (asciiEnv None) toSecondPick (@mount (asciiEnv None)) = Some secondPick.
Proof. reflexivity. Qed.

Example reach_analyzing : @run (asciiEnv None) toAnalyzing (@mount (asciiEnv None)) = Some analyzing.
Proof. reflexivity. Qed.

(** ** Fetch pipelines *)

(** C4. The response to any pending price request, and to any pending AI
    request, is handled, and afterwards the loading flag of its pipeline is
    false whatever the outcome.  When the outcome is a network failure or a
    status outside 200-299 the value of the pipeline is null, and the state
    reached is the one a network failure leads to: the kind of failure
    leaves no trace. *)
Theorem failure_collapses_to_null `{Env} (s : State) (i : nat) :
  (∀ req (o : FetchOutcome PriceData),
     pendingPrice s !! i = Some req →
     ∃ s', step (PriceResponse i o) s = Some s'
           ∧ loadingPrice s' = false
           ∧ (failure o →
              latestPrice s' = None
              ∧ step (PriceResponse i NetworkError) s = Some s'))
  ∧ (∀ req (o : FetchOutcome AiResult),
       pendingAi s !! i = Some req →
       ∃ s', step (AiResponse i o) s = Some s'
             ∧ loadingAi s' = false
             ∧ (failure o →
                aiResult s' = None
                ∧ step (AiResponse i NetworkError) s = Some s')).
Proof.
  split.
  - intros req o Hp. eexists. split; [by eapply step_price_response |].
    split; [reflexivity |]. intros Hf.
    rewrite (step_price_response i req NetworkError s Hp).
    unfold priceSettled. by rewrite (fetchJson_failure o Hf).
  - intros req o Ha. eexists. split; [by eapply step_ai_response |].
    split; [reflexivity |]. intros Hf.
    rewrite (step_ai_response i req NetworkError s Ha).
    unfold aiSettled. by rewrite (fetchJson_failure o Hf).
Qed.

Lemma failure_collapses_to_null_witness :
  (∃ s', @step (asciiEnv None) (PriceResponse 0 (Response 500 None)) analyzing = Some s'
         ∧ loadingPrice s' = false
         ∧ latestPrice s' = None
         ∧ @step (asciiEnv None) (PriceResponse 0 NetworkError) analyzing = Some s')
  ∧ (∃ s', @step (asciiEnv None) (AiResponse 0 (Response 404 (Some sampleAi))) analyzing = Some s'
           ∧ loadingAi s' = false
           ∧ aiResult s' = None
           ∧ @step (asciiEnv None) (AiResponse 0 NetworkError) analyzing = Some s').
Proof.
  destruct (@failure_collapses_to_null (asciiEnv None) analyzing 0) as [Hp Ha].
  split.
  - destruct (Hp (mkRequest "/api/price?symbol=AAPL&market=NASDAQ" apple)
                (Response 500 None) eq_refl) as (s' & Hs & Hl & Hf).
    exists s'. split; [exact Hs |]. split; [exact Hl |].
    apply Hf. simpl. lia.
  - destruct (Ha (mkRequest "/api/ai?symbol=AAPL&market=NASDAQ" apple)
                (Response 404 (Some sampleAi)) eq_refl) as (s' & Hs & Hl & Hf).
    exists s'. split; [exact Hs |]. split; [exact Hl |].
    apply Hf. simpl. lia.
Defined.

(** C1 (amended). The response to a pending price request is applied
    whatever the Selection is when it arrives, so also when the request was
    dispatched for a Security A and B has been selected since: the price
    value becomes the close of the response when the status is 2xx and the
    body decodes, and null otherwise; the price loading flag becomes false;
    the Selection is unchanged and the other pending requests stay
    pending. *)
Theorem late_response_applied `{Env}
    (s : State) (i : nat) (req : Request) (o : FetchOutcome PriceData) :
  pendingPrice s !! i = Some req →
  ∃ s', step (PriceResponse i o) s = Some s'
        ∧ latestPrice s'
          = match fetchJson o with
            | Fulfilled data => Some (close data)
            | Rejected => None
            end
        ∧ (∀ status data, o = Response status (Some data) →
             (200 ≤ status ≤ 299)%Z → latestPrice s' = Some (close data))
        ∧ (failure o → latestPrice s' = None)
        ∧ loadingPrice s' = false
        ∧ selected s' = selected s
        ∧ pendingPrice s' = delete i (pendingPrice s).
Proof.
  intros Hp. eexists. split; [by eapply step_price_response |].
  unfold priceSettled. repeat split.
  - by destruct (fetchJson o).
  - intros status data -> Hok. by rewrite fetchJson_success.
  - intros Hf. by rewrite fetchJson_failure.
  - by destruct (fetchJson o).
  - by destruct (fetchJson o).
Qed.

Lemma late_response_applied_witness :
  pendingPrice secondPick !! 0%nat
  = Some (mkRequest "/api/price?symbol=AAPL&market=NASDAQ" apple)
  ∧ ∃ s', @step (asciiEnv None) (PriceResponse 0 applePrice) secondPick = Some s'
          ∧ latestPrice s' = Some (371 # 2)
          ∧ loadingPrice s' = false
          ∧ selected s' = Some samsung
          ∧ pendingPrice s'
            = [mkRequest "/api/price?symbol=005930&market=KOSPI" samsung].
Proof.
  split; [reflexivity |].
  destruct (@late_response_applied (asciiEnv None) secondPick 0
              (mkRequest "/api/price?symbol=AAPL&market=NASDAQ" apple)
              applePrice eq_refl)
    as (s' & Hstep & Hv & _ & _ & Hl & Hsel & Hpend).
  exists s'. repeat split; assumption.
Defined.

(** The staleness rule fails on the code.  After Apple is picked, the box
    edited and Samsung picked, Apple's request is still pending; its
    response sets the price to 185.5 and the loading flag to false while
    Samsung is selected and Samsung's request is in flight. *)
Lemma stale_response_not_discarded :
  @run (asciiEnv None) toSecondPick (@mount (asciiEnv None)) = Some secondPick
  ∧ ¬ @staleResponseDiscarded (asciiEnv None) secondPick 0 applePrice.
Proof.
  split; [reflexivity |]. intros Hd.
  destruct (Hd (mkRequest "/api/price?symbol=AAPL&market=NASDAQ" apple) samsung
              (priceSettled applePrice
                 (setPendingPrice (delete 0%nat (pendingPrice secondPick)) secondPick)))
    as [Hv _]; [reflexivity | reflexivity | discriminate | reflexivity |].
  discriminate Hv.
Qed.

(** ** Selection *)

(** C2 (amended). A result can be picked only while nothing is selected, so
    entering Selected never compares two Securities.  The pick selects the
    Security, sets the price value to null and the price loading flag to
    true and dispatches the price request for it.  The AI value, the AI
    loading flag and the pending AI requests are left as they were: the AI
    request for the Security is dispatched by the analyze action, which
    sets the AI value to null and the AI loading flag to true. *)
Theorem pick_begins_price_fetch `{Env} (s : State) (i : nat) (stock : Stock) :
  listVisible s = true →
  results s !! i = Some stock →
  ∃ s', step (Click i) s = Some s'
        ∧ selected s = None
        ∧ selected s' = Some stock
        ∧ latestPrice s' = None
        ∧ loadingPrice s' = true
        ∧ pendingPrice s' = pendingPrice s ++ [priceRequest stock]
        ∧ aiResult s' = aiResult s
        ∧ loadingAi s' = loadingAi s
        ∧ pendingAi s' = pendingAi s
        ∧ (∀ s'', step Analyze s' = Some s'' →
             aiResult s'' = None
             ∧ loadingAi s'' = true
             ∧ pendingAi s'' = pendingAi s' ++ [aiRequest stock]).
Proof.
  intros Hv Hi. destruct (step_click i stock s Hv Hi) as [Hsel Hstep].
  eexists. split; [exact Hstep |].
  unfold priceEffect. simpl. split_and!; try done.
  intros s'' Han. unfold step in Han. simpl in Han.
  destruct (analyzeEnabled _); [| discriminate Han]. simpl in Han.
  injection Han as <-.
  rewrite runEffects_same_selection by reflexivity.
  split_and!; reflexivity.
Qed.

Lemma pick_begins_price_fetch_witness :
  listVisible searching = true
  ∧ results searching !! 0%nat = Some apple
  ∧ ∃ s', @step (asciiEnv None) (Click 0) searching = Some s'
          ∧ selected s' = Some apple
          ∧ loadingPrice s' = true
          ∧ pendingPrice s' = [mkRequest "/api/price?symbol=AAPL&market=NASDAQ" apple]
          ∧ pendingAi s' = [].
Proof.
  split; [reflexivity |]. split; [reflexivity |].
  destruct (@pick_begins_price_fetch (asciiEnv None) searching 0 apple
              eq_refl eq_refl)
    as (s' & Hstep & _ & Hsel & _ & Hl & Hp & _ & _ & Ha & _).
  exists s'. repeat split; assumption.
Defined.

(** Picking Apple from the results of "app" begins no AI request. *)
Lemma pick_begins_no_ai_fetch :
  @run (asciiEnv None) toSearching (@mount (asciiEnv None)) = Some searching
  ∧ ¬ @selectionBeginsBothFetches (asciiEnv None) searching 0.
Proof.
  split; [reflexivity |]. intros Hb.
  destruct (Hb apple
              (@priceEffect (asciiEnv None) (onClick apple searching)))
    as (_ & _ & _ & Ha); [reflexivity | reflexivity |].
  discriminate Ha.
Qed.

(** C5. While a Security is selected, every edit of the query text, to any
    string, is handled, and the handler clears the Selection while the
    ResultSet is still the old one; the effects that follow, which compute
    the next ResultSet when the text has changed, start from a state
    without Selection and leave it without Selection. *)
Theorem edit_clears_selection `{Env} (s : State) (sel : Stock) (v : string) :
  selected s = Some sel →
  handle (Change v) s = Some (onChange v s)
  ∧ selected (onChange v s) = None
  ∧ query (onChange v s) = v
  ∧ results (onChange v s) = results s
  ∧ step (Change v) s = Some (runEffects s (onChange v s))
  ∧ selected (runEffects s (onChange v s)) = None
  ∧ results (runEffects s (onChange v s))
    = (if String.eqb (query s) v then results s else search (allStocks s) v).
Proof.
  intros Hsel. split_and!; try reflexivity.
  - by destruct (runEffects_frame s (onChange v s)) as (_ & -> & _).
  - rewrite runEffects_results. unfold searchDepsChanged. simpl.
    destruct (String.eqb (query s) v); simpl; [| reflexivity].
    by destruct (catalog s).
Qed.

Lemma edit_clears_selection_witness :
  selected secondPick = Some samsung
  ∧ ∃ s', @step (asciiEnv None) (Change "app") secondPick = Some s'
          ∧ selected s' = None
          ∧ results s' = [apple].
Proof.
  split; [reflexivity |].
  destruct (@edit_clears_selection (asciiEnv None) secondPick samsung "app"
              eq_refl)
    as (_ & _ & _ & _ & Hstep & Hsel & Hres).
  eexists. split; [exact Hstep |]. split; [exact Hsel | exact Hres].
Defined.

Lemma priceEffect_unselected `{Env} (s : State) :
  selected s = None →
  latestPrice (priceEffect s) = None
  ∧ aiResult (priceEffect s) = None
  ∧ query (priceEffect s) = query s
  ∧ results (priceEffect s) = results s
  ∧ selected (priceEffect s) = selected s
  ∧ allStocks (priceEffect s) = allStocks s
  ∧ loadingPrice (priceEffect s) = loadingPrice s
  ∧ loadingAi (priceEffect s) = loadingAi s
  ∧ catalog (priceEffect s) = catalog s
  ∧ pendingPrice (priceEffect s) = pendingPrice s
  ∧ pendingAi (priceEffect s) = pendingAi s.
Proof. intros Hsel. unfold priceEffect. rewrite Hsel. by split_and!. Qed.

(** C10. A transition in which the Selection becomes none is an edit of the
    query text.  The price effect then runs its branch for no selection on
    the state the edit (and the search effect, if the text changed) has
    produced: that branch sets the price value and the AI value to null and
    changes no other field.  Over the whole transition the two values are
    null, no request is dispatched, and both loading flags, the catalog and
    its status are as before; only the query and its ResultSet, which are
    the edit, differ. *)
Theorem deselect_resets_values_only `{Env}
    (s : State) (sel : Stock) (e : Event) (s' : State) :
  selected s = Some sel →
  step e s = Some s' →
  selected s' = None →
  ∃ v mid,
    e = Change v
    ∧ mid = (if String.eqb (query s) v then onChange v s
             else searchEffect (onChange v s))
    ∧ selected mid = None
    ∧ s' = priceEffect mid
    ∧ s' = setAiResult None (setLatestPrice None mid)
    ∧ latestPrice s' = None
    ∧ aiResult s' = None
    ∧ loadingPrice s' = loadingPrice s
    ∧ loadingAi s' = loadingAi s
    ∧ pendingPrice s' = pendingPrice s
    ∧ pendingAi s' = pendingAi s
    ∧ allStocks s' = allStocks s
    ∧ catalog s' = catalog s.
Proof.
  intros Hsel Hstep Hnone.
  assert (Hstep' := Hstep). unfold step in Hstep'.
  destruct (handle e s) as [n|] eqn:Hn; [| discriminate Hstep'].
  injection Hstep' as <-.
  destruct (runEffects_frame s n) as (_ & Hs & _). rewrite Hs in Hnone.
  pose proof (handle_selected e s n Hn) as Hh.
  destruct e as [| |v| | | |];
    try (rewrite Hh, Hsel in Hnone; discriminate Hnone);
    try (rewrite Hsel in Hh; discriminate Hh).
  injection Hn as <-. exists v. eexists. split; [reflexivity |].
  split; [reflexivity |].
  assert (Hr : runEffects s (onChange v s)
               = priceEffect (if String.eqb (query s) v then onChange v s
                              else searchEffect (onChange v s))).
  { unfold runEffects, searchDepsChanged, selectedChanged. simpl.
    rewrite Hsel. destruct (String.eqb (query s) v); simpl; [| reflexivity].
    by destruct (catalog s). }
  rewrite Hr. clear Hr Hs Hh Hstep Hnone.
  destruct (String.eqb (query s) v); by split_and!.
Qed.

Lemma deselect_resets_values_only_witness :
  selected analyzing = Some apple
  ∧ loadingPrice analyzing = true
  ∧ loadingAi analyzing = true
  ∧ ∃ s', @step (asciiEnv None) (Change "") analyzing = Some s'
          ∧ selected s' = None
          ∧ latestPrice s' = None
          ∧ aiResult s' = None
          ∧ loadingPrice s' = true
          ∧ loadingAi s' = true
          ∧ pendingPrice s' = pendingPrice analyzing
          ∧ pendingAi s' = pendingAi analyzing.
Proof.
  split; [reflexivity |]. split; [reflexivity |]. split; [reflexivity |].
  destruct (@deselect_resets_values_only (asciiEnv None) analyzing apple
              (Change "")
              (@runEffects (asciiEnv None) analyzing (onChange "" analyzing))
              eq_refl eq_refl eq_refl)
    as (v & mid & _ & _ & _ & _ & _ & Hv & Ha & Hlp & Hla & Hpp & Hpa & _).
  eexists. split; [reflexivity |]. split; [reflexivity |].
  split_and!; assumption.
Defined.

(** * Further properties of the component *)

(** ** One transition, event by event *)

Lemma step_inv `{Env} (e : Event) (s s' : State) :
  step e s = Some s' →
  match e with
  | CatalogLoaded us ko nyse kosdaq =>
      catalog s = Loading
      ∧ s' = searchEffect (catalogLoaded us ko nyse kosdaq s)
  | CatalogFailed => catalog s = Loading ∧ s' = setCatalog LoadFailed s
  | Change v =>
      s' = mkState v
             (if String.eqb (query s) v then results s
              else search (allStocks s) v)
             None (allStocks s)
             (if truthy (selected s) then None else latestPrice s)
             (if truthy (selected s) then None else aiResult s)
             (loadingPrice s) (loadingAi s) (catalog s)
             (pendingPrice s) (pendingAi s)
  | Click i =>
      ∃ stock, listVisible s = true ∧ results s !! i = Some stock
               ∧ selected s = None ∧ query s ≠ ""
               ∧ s' = priceEffect (onClick stock s)
  | Analyze =>
      ∃ sel, selected s = Some sel ∧ loadingAi s = false
             ∧ s' = setPendingAi (pendingAi s ++ [aiRequest sel])
                      (setAiResult None (setLoadingAi true s))
  | PriceResponse i o =>
      ∃ req, pendingPrice s !! i = Some req
             ∧ s' = priceSettled o (setPendingPrice (delete i (pendingPrice s)) s)
  | AiResponse i o =>
      ∃ req, pendingAi s !! i = Some req
             ∧ s' = aiSettled o (setPendingAi (delete i (pendingAi s)) s)
  end.
Proof.
  destruct e as [us ko nyse kosdaq| |v|i| |i o|i o]; intros Hstep.
  - unfold step in Hstep. simpl in Hstep.
    destruct (catalog s) eqn:Hc; try discriminate Hstep.
    simpl in Hstep. injection Hstep as <-. split; [reflexivity |].
    unfold runEffects, searchDepsChanged. simpl. rewrite Hc, orb_true_r.
    by rewrite selectedChanged_same.
  - unfold step in Hstep. simpl in Hstep.
    destruct (catalog s) eqn:Hc; try discriminate Hstep.
    simpl in Hstep. injection Hstep as <-. split; [reflexivity |].
    unfold runEffects, searchDepsChanged. simpl.
    rewrite Hc, String.eqb_refl. simpl. by rewrite selectedChanged_same.
  - rewrite step_change in Hstep. injection Hstep as <-.
    destruct s as [q r sel al lp ar ldp lda cat pp pa].
    unfold runEffects, searchDepsChanged, selectedChanged, priceEffect,
      searchEffect. simpl.
    destruct sel, (String.eqb q v), cat; reflexivity.
  - unfold step in Hstep. simpl in Hstep.
    destruct (listVisible s) eqn:Hv; [| discriminate Hstep].
    destruct (results s !! i) as [stock|] eqn:Hi; [| discriminate Hstep].
    destruct (step_click i stock s Hv Hi) as [Hsel Hs].
    unfold step in Hs. simpl in Hs. rewrite Hv, Hi in Hs.
    rewrite Hs in Hstep. injection Hstep as <-.
    exists stock. split_and!; try done.
    unfold listVisible in Hv. intros Hq. by rewrite Hq in Hv.
  - assert (Hen : analyzeEnabled s = true).
    { unfold step in Hstep. simpl in Hstep.
      by destruct (analyzeEnabled s). }
    rewrite (step_analyze s Hen) in Hstep. injection Hstep as <-.
    unfold analyzeEnabled in Hen. apply andb_true_iff in Hen as [Hsel Hl].
    apply negb_true_iff in Hl. unfold handleAiAnalyze.
    destruct (selected s) as [sel|]; [| discriminate Hsel]. by exists sel.
  - destruct (pendingPrice s !! i) as [req|] eqn:Hi.
    + rewrite (step_price_response i req o s Hi) in Hstep.
      injection Hstep as <-. by exists req.
    + unfold step in Hstep. simpl in Hstep. rewrite Hi in Hstep.
      discriminate Hstep.
  - destruct (pendingAi s !! i) as [req|] eqn:Hi.
    + rewrite (step_ai_response i req o s Hi) in Hstep.
      injection Hstep as <-. by exists req.
    + unfold step in Hstep. simpl in Hstep. rewrite Hi in Hstep.
      discriminate Hstep.
Qed.

Lemma search_nil `{Env} (q : string) : search [] q = [].
Proof. unfold search. by destruct (String.eqb q ""). Qed.

Lemma search_subseteq `{Env} (l : list Stock) (q : string) (st : Stock) :
  st ∈ search l q → st ∈ l.
Proof.
  unfold search. destruct (String.eqb q ""); [by intros ?%elem_of_nil |].
  intros Hin. eapply sublist_subseteq; [| exact Hin].
  etrans; [apply sublist_take | apply sublist_filter].
Qed.

(** ** The invariant *)

Lemma coherent_mount `{Env} : coherent mount.
Proof.
  split_and!; try done. split; [done | by right].
Qed.

Lemma coherent_step `{Env} (e : Event) (s s' : State) :
  coherent s → step e s = Some s' → coherent s'.
Proof.
  intros (Hr & [Hg1 Hg2] & [Hp Ha] & [Hl Hai]) Hstep.
  pose proof (step_resultsCurrent e s s' Hr Hstep) as Hr'.
  split; [exact Hr' |]. clear Hr'.
  apply step_inv in Hstep.
  destruct s as [q r sel al lp ar ldp lda cat pp pa].
  unfold resultsCurrent, catalogGate, requestsFromCatalog,
    loadingTracksPending in *. simpl in *.
  destruct e as [us ko nyse kosdaq| |v|i| |i o|i o].
  - destruct Hstep as [-> ->]. simpl.
    destruct Hg1 as (-> & -> & -> & -> & ->); [done |].
    split_and!; try done; try constructor.
  - destruct Hstep as [-> ->]. simpl.
    destruct Hg1 as (-> & -> & -> & -> & ->); [done |].
    split_and!; try done; try constructor.
  - subst s'. simpl. split_and!; try done.
    intros Hc. destruct (Hg1 Hc) as (-> & -> & _ & -> & ->).
    rewrite search_nil. by destruct (String.eqb q v).
  - destruct Hstep as (stock & Hv & Hi & -> & Hq & ->).
    unfold priceEffect. simpl.
    assert (Hin : stock ∈ r) by by eapply list_elem_of_lookup_2.
    assert (Hcat : cat = Loaded).
    { destruct cat; [| reflexivity |];
        (destruct Hg1 as (_ & -> & _); [done | by apply elem_of_nil in Hin]). }
    split_and!; try done.
    + intros st [= <-]. done.
    + apply Forall_app. split; [exact Hp |]. constructor; [| constructor].
      simpl. split; [| reflexivity]. rewrite Hr in Hin.
      by eapply search_subseteq.
    + intros Hnil. by apply app_eq_nil in Hnil as [_ ?].
  - destruct Hstep as (sel0 & -> & -> & ->). simpl.
    destruct (Hg2 sel0 eq_refl) as (Hin & Hq & ->).
    split_and!; try done.
    + apply Forall_app. split; [exact Ha |]. constructor; [| constructor].
      simpl. split; [| reflexivity]. rewrite Hr in Hin.
      by eapply search_subseteq.
    + left. destruct Hai as [[? _] | [_ ->]]; [done | by split].
  - destruct Hstep as (req & Hi & ->).
    assert (Hcat : cat = Loaded).
    { destruct cat; [| reflexivity |];
        (destruct Hg1 as (_ & _ & _ & -> & _); [done | discriminate Hi]). }
    unfold priceSettled. destruct (fetchJson o); simpl;
      (split_and!; try done; by apply Forall_delete).
  - destruct Hstep as (req & Hi & ->).
    assert (Hcat : cat = Loaded).
    { destruct cat; [| reflexivity |];
        (destruct Hg1 as (_ & _ & _ & _ & ->); [done | discriminate Hi]). }
    assert (Hdel : delete i pa = []).
    { destruct Hai as [[_ Hlen] | [_ ->]]; [| discriminate Hi].
      destruct pa as [|x [|y pa]]; try discriminate Hlen.
      destruct i; [reflexivity | discriminate Hi]. }
    unfold aiSettled. destruct (fetchJson o); simpl; rewrite Hdel;
      (split_and!; try done; first [by right | constructor]).
Qed.

Lemma reachable_coherent `{Env} (s : State) : reachable s → coherent s.
Proof.
  intros [es Hes]. eapply (run_invariant coherent); [| | exact Hes].
  - intros e s1 s2. apply coherent_step.
  - apply coherent_mount.
Qed.

Lemma search_found `{Env} (l : list Stock) (q : string) (st : Stock) :
  st ∈ search l q → st ∈ l ∧ found q st.
Proof.
  intros Hin. split; [by eapply search_subseteq |].
  unfold search in Hin.
  destruct (String.eqb q ""); [by apply elem_of_nil in Hin |].
  apply (sublist_subseteq _ _ (sublist_take _ _)) in Hin.
  apply list_elem_of_filter in Hin as [Hm _].
  apply matches_spec. by apply Is_true_true.
Qed.

(** ** Catalog gate *)

(** X1. Until the catalog has arrived, and for good when its load has
    failed, the catalog and the ResultSet are empty whatever is typed,
    nothing is selected, no request is in flight, and neither a pick nor
    the analyze action can happen. *)
Theorem nothing_before_catalog `{Env} (s : State) :
  reachable s →
  catalog s ≠ Loaded →
  allStocks s = [] ∧ results s = [] ∧ selected s = None
  ∧ pendingPrice s = [] ∧ pendingAi s = []
  ∧ (∀ i, step (Click i) s = None)
  ∧ step Analyze s = None.
Proof.
  intros Hr Hc.
  destruct (reachable_coherent s Hr) as (_ & [Hg _] & _).
  destruct (Hg Hc) as (Hal & Hres & Hsel & Hpp & Hpa).
  split_and!; try done.
  - intros i. unfold step. simpl. unfold listVisible.
    by rewrite Hres, andb_false_r.
  - unfold step. simpl. unfold analyzeEnabled. by rewrite Hsel.
Qed.

Lemma nothing_before_catalog_witness :
  @run (asciiEnv None) [CatalogFailed; Change "app"] (@mount (asciiEnv None))
  = Some (setQuery "app" (setCatalog LoadFailed initial))
  ∧ results (setQuery "app" (setCatalog LoadFailed initial)) = []
  ∧ @step (asciiEnv None) (Click 0) (setQuery "app" (setCatalog LoadFailed initial))
    = None.
Proof.
  split; [reflexivity |].
  destruct (@nothing_before_catalog (asciiEnv None)
              (setQuery "app" (setCatalog LoadFailed initial)))
    as (_ & Hres & _ & _ & _ & Hclick & _).
  - by exists [CatalogFailed; Change "app"].
  - discriminate.
  - split; [exact Hres | apply Hclick].
Defined.

(** X2. The catalog is set at most once: from a state whose load has
    settled (arrived or failed), no sequence of events changes the catalog
    or its status. *)
Theorem catalog_set_once `{Env} (es : list Event) (s s' : State) :
  catalog s ≠ Loading →
  run es s = Some s' →
  allStocks s' = allStocks s ∧ catalog s' = catalog s.
Proof.
  intros Hc Hrun.
  apply (run_invariant
           (λ t, allStocks t = allStocks s ∧ catalog t = catalog s))
    with (es := es) (s := s); [| done | exact Hrun].
  intros e t t' [Hal Hcat] Hstep. rewrite <- Hal, <- Hcat.
  assert (Ht : catalog t ≠ Loading) by by rewrite Hcat.
  apply step_inv in Hstep.
  destruct e as [us ko nyse kosdaq| |v|i| |i o|i o].
  - by destruct Hstep as [? _].
  - by destruct Hstep as [? _].
  - by subst t'.
  - destruct Hstep as (stock & _ & _ & _ & _ & ->). done.
  - destruct Hstep as (sel & _ & _ & ->). done.
  - destruct Hstep as (req & _ & ->). unfold priceSettled.
    by destruct (fetchJson o).
  - destruct Hstep as (req & _ & ->). unfold aiSettled.
    by destruct (fetchJson o).
Qed.

Lemma catalog_set_once_witness :
  catalog searching ≠ Loading
  ∧ @run (asciiEnv None) [Click 0; Change "sam"; Click 0] searching
    = Some secondPick
  ∧ allStocks secondPick = allStocks searching
  ∧ catalog secondPick = catalog searching.
Proof.
  split; [discriminate |]. split; [vm_compute; reflexivity |].
  apply (@catalog_set_once (asciiEnv None)
           [Click 0; Change "sam"; Click 0] searching secondPick);
    [discriminate | vm_compute; reflexivity].
Defined.

(** ** Selection *)

(** X3. In every reachable state the selected Security, if there is one,
    is an element of the current ResultSet and of the catalog, the query is
    not empty and matches it, and the catalog has arrived. *)
Theorem selection_from_results `{Env} (s : State) (st : Stock) :
  reachable s →
  selected s = Some st →
  st ∈ results s ∧ st ∈ allStocks s ∧ query s ≠ "" ∧ found (query s) st
  ∧ catalog s = Loaded.
Proof.
  intros Hr Hsel.
  destruct (reachable_coherent s Hr) as (Hres & [_ Hg] & _).
  destruct (Hg st Hsel) as (Hin & Hq & Hc).
  assert (Hin' := Hin). rewrite Hres in Hin'.
  apply search_found in Hin' as [Hal Hf]. done.
Qed.

Lemma selection_from_results_witness :
  selected secondPick = Some samsung
  ∧ samsung ∈ results secondPick
  ∧ samsung ∈ allStocks secondPick
  ∧ @found (asciiEnv None) "sam" samsung.
Proof.
  split; [reflexivity |].
  destruct (@selection_from_results (asciiEnv None) secondPick samsung)
    as (Hres & Hal & _ & Hf & _).
  - by exists toSecondPick.
  - reflexivity.
  - split; [exact Hres |]. split; [exact Hal | exact Hf].
Defined.

(** ** Requests in flight *)

(** X4. Every price request and every AI request in flight was dispatched
    for a Security of the catalog, and its URL is the endpoint with that
    Security's symbol and market interpolated. *)
Theorem requests_target_catalog `{Env} (s : State) (r : Request) :
  reachable s →
  (r ∈ pendingPrice s →
   subject r ∈ allStocks s
   ∧ url r = getApiUrl ("/api/price?symbol=" +:+ Symbol (subject r)
                        +:+ "&market=" +:+ Market (subject r)))
  ∧ (r ∈ pendingAi s →
     subject r ∈ allStocks s
     ∧ url r = getApiUrl ("/api/ai?symbol=" +:+ Symbol (subject r)
                          +:+ "&market=" +:+ Market (subject r))).
Proof.
  intros Hr.
  destruct (reachable_coherent s Hr) as (_ & _ & [Hp Ha] & _).
  rewrite Forall_forall in Hp, Ha. split; intros Hin.
  - destruct (Hp r Hin) as [Hal Heq]. split; [exact Hal |]. by rewrite Heq at 1.
  - destruct (Ha r Hin) as [Hal Heq]. split; [exact Hal |]. by rewrite Heq at 1.
Qed.

Lemma requests_target_catalog_witness :
  mkRequest "/api/ai?symbol=AAPL&market=NASDAQ" apple ∈ pendingAi analyzing
  ∧ apple ∈ allStocks analyzing
  ∧ url (mkRequest "/api/ai?symbol=AAPL&market=NASDAQ" apple)
    = @getApiUrl (asciiEnv None) "/api/ai?symbol=AAPL&market=NASDAQ".
Proof.
  assert (Hin : mkRequest "/api/ai?symbol=AAPL&market=NASDAQ" apple
                ∈ pendingAi analyzing) by (simpl; apply list_elem_of_singleton; reflexivity).
  split; [exact Hin |].
  destruct (@requests_target_catalog (asciiEnv None) analyzing
              (mkRequest "/api/ai?symbol=AAPL&market=NASDAQ" apple))
    as [_ Ha]; [by exists toAnalyzing |].
  exact (Ha Hin).
Defined.

(** X5. At most one AI request is in flight at any time; the AI loading
    flag is true exactly while that request is pending, and while it is
    true the analyze action cannot happen. *)
Theorem ai_single_flight `{Env} (s : State) :
  reachable s →
  length (pendingAi s) ≤ 1
  ∧ (loadingAi s = true ↔ pendingAi s ≠ [])
  ∧ (loadingAi s = true → step Analyze s = None).
Proof.
  intros Hr.
  destruct (reachable_coherent s Hr) as (_ & _ & _ & [_ Hai]).
  split_and!.
  - destruct Hai as [[_ ->] | [_ ->]]; simpl; lia.
  - destruct Hai as [[-> Hlen] | [-> ->]]; split; try done.
    intros _ Hnil. by rewrite Hnil in Hlen.
  - intros Hl. unfold step. simpl. unfold analyzeEnabled.
    by rewrite Hl, andb_false_r.
Qed.

Lemma ai_single_flight_witness :
  length (pendingAi analyzing) ≤ 1
  ∧ loadingAi analyzing = true
  ∧ @step (asciiEnv None) Analyze analyzing = None.
Proof.
  destruct (@ai_single_flight (asciiEnv None) analyzing)
    as (Hlen & _ & Hno); [by exists toAnalyzing |].
  split; [exact Hlen |]. split; [reflexivity | by apply Hno].
Defined.

(** X6. The price loading flag is never up with nothing in flight: when it
    is true, a price request is pending. *)
Theorem price_loading_has_request `{Env} (s : State) :
  reachable s →
  loadingPrice s = true →
  pendingPrice s ≠ [].
Proof.
  intros Hr Hl Hnil.
  destruct (reachable_coherent s Hr) as (_ & _ & _ & [Hp _]).
  rewrite (Hp Hnil) in Hl. discriminate Hl.
Qed.

Lemma price_loading_has_request_witness :
  loadingPrice secondPick = true ∧ pendingPrice secondPick ≠ [].
Proof.
  split; [reflexivity |].
  apply (@price_loading_has_request (asciiEnv None) secondPick);
    [by exists toSecondPick | reflexivity].
Defined.

(** ** Request URLs *)

Lemma append_sep_inj (c : ascii) (a a' b b' : string) :
  Js.lacks c a = true → Js.lacks c a' = true →
  a +:+ String c b = a' +:+ String c b' → a = a' ∧ b = b'.
Proof.
  revert a'. induction a as [|x a IH]; intros [|y a'] Ha Ha' Heq.
  - rewrite !append_nil_l in Heq. by injection Heq as ->.
  - rewrite append_nil_l, append_cons in Heq. injection Heq as <- _.
    simpl in Ha'. by rewrite Ascii.eqb_refl in Ha'.
  - rewrite append_nil_l, append_cons in Heq. injection Heq as -> _.
    simpl in Ha. by rewrite Ascii.eqb_refl in Ha.
  - rewrite !append_cons in Heq. injection Heq as -> Heq.
    simpl in Ha, Ha'. apply andb_true_iff in Ha as [_ Ha], Ha' as [_ Ha'].
    destruct (IH a' Ha Ha' Heq) as [-> ->]. done.
Qed.

Lemma getApiUrl_prefix `{Env} :
  ∃ pre, ∀ path, getApiUrl path = pre +:+ path.
Proof.
  unfold getApiUrl. destruct apiUrl as [base|].
  - destruct (Js.falsy (Some base) || String.eqb base "undefined").
    + by exists "".
    + by exists (Js.replaceTrailingSlash base).
  - by exists "".
Qed.

Lemma getApiUrl_inj `{Env} (p1 p2 : string) :
  getApiUrl p1 = getApiUrl p2 → p1 = p2.
Proof.
  destruct getApiUrl_prefix as [pre Hpre]. rewrite !Hpre.
  apply String.app_inj.
Qed.

Lemma query_params_inj (a b : Stock) :
  Js.lacks ampersand (Symbol a) = true →
  Js.lacks ampersand (Symbol b) = true →
  Symbol a +:+ "&market=" +:+ Market a = Symbol b +:+ "&market=" +:+ Market b →
  identity a = identity b.
Proof.
  intros Ha Hb Heq.
  destruct (append_sep_inj ampersand (Symbol a) (Symbol b)
              ("market=" +:+ Market a) ("market=" +:+ Market b) Ha Hb Heq)
    as [Hs Hm].
  apply String.app_inj in Hm. unfold identity. by rewrite Hs, Hm.
Qed.

(** X7. The request URL tells Securities apart: when neither symbol holds
    the parameter separator, two Securities with the same price URL, or the
    same AI URL, have the same symbol and the same market; and whatever the
    base, different paths give different URLs. *)
Theorem request_url_identifies `{Env} (a b : Stock) :
  Js.lacks ampersand (Symbol a) = true →
  Js.lacks ampersand (Symbol b) = true →
  (url (priceRequest a) = url (priceRequest b) → identity a = identity b)
  ∧ (url (aiRequest a) = url (aiRequest b) → identity a = identity b)
  ∧ (∀ p1 p2, getApiUrl p1 = getApiUrl p2 → p1 = p2).
Proof.
  intros Ha Hb. split_and!.
  - simpl. intros Heq%getApiUrl_inj%String.app_inj.
    by apply query_params_inj.
  - simpl. intros Heq%getApiUrl_inj%String.app_inj.
    by apply query_params_inj.
  - apply getApiUrl_inj.
Qed.

Lemma request_url_identifies_witness :
  url (@priceRequest (asciiEnv (Some "http://h/")) apple)
  = "http://h/api/price?symbol=AAPL&market=NASDAQ"
  ∧ (url (@priceRequest (asciiEnv (Some "http://h/")) apple)
     = url (@priceRequest (asciiEnv (Some "http://h/")) (mkStock "AAPL" "Apple" "NASDAQ")) →
     identity apple = identity (mkStock "AAPL" "Apple" "NASDAQ")).
Proof.
  split; [reflexivity |].
  apply (@request_url_identifies (asciiEnv (Some "http://h/")) apple
           (mkStock "AAPL" "Apple" "NASDAQ")); reflexivity.
Defined.

Example separator_in_symbol_collides :
  url (@priceRequest (asciiEnv None) oddSymbol)
  = url (@priceRequest (asciiEnv None) oddMarket)
  ∧ identity oddSymbol ≠ identity oddMarket.
Proof. split; [reflexivity | discriminate]. Qed.

(** ** Parsed rows *)

Lemma split_nonempty (c : ascii) (s : string) : Js.split c s ≠ [].
Proof.
  destruct s as [|d s]; simpl; [done |].
  destruct (Ascii.eqb d c); [done |]. by destruct (Js.split c s).
Qed.

Lemma split_pieces_lack (c d : ascii) (s : string) :
  (c = d ∨ Js.lacks d s = true) →
  Forall (λ x, Js.lacks d x = true) (Js.split c s).
Proof.
  induction s as [|x s IH]; intros Hd.
  - simpl. by repeat constructor.
  - assert (Htail : c = d ∨ Js.lacks d s = true).
    { destruct Hd as [-> | Hd]; [by left | right].
      simpl in Hd. by apply andb_true_iff in Hd as [_ ?]. }
    specialize (IH Htail). simpl.
    destruct (Ascii.eqb x c) eqn:E.
    + constructor; [reflexivity | exact IH].
    + assert (Hx : Ascii.eqb x d = false).
      { destruct Hd as [<- | Hd]; [exact E |].
        simpl in Hd. apply andb_true_iff in Hd as [Hd _].
        by apply negb_true_iff in Hd. }
      destruct (Js.split c s) as [|h t].
      * constructor; [| constructor]. simpl. by rewrite Hx.
      * apply Forall_cons in IH as [Hh Ht].
        constructor; [| exact Ht]. simpl. by rewrite Hx, Hh.
Qed.

Lemma parseLine_clean (d : ascii) (line : string) (st : Stock) :
  (d = Js.comma ∨ d = Js.CR ∨ Js.lacks d line = true) →
  parseLine line = Some st →
  Js.lacks d (Symbol st) = true ∧ Js.lacks d (Security st) = true
  ∧ Js.lacks d (Market st) = true.
Proof.
  intros Hd. unfold parseLine.
  assert (Hall : Forall (λ x, Js.lacks d x = true)
                   (Js.split Js.comma (Js.removeAll Js.CR line))).
  { apply split_pieces_lack. destruct Hd as [-> | [-> | Hd]].
    - by left.
    - right. apply removeAll_lacks.
    - right. by apply removeAll_keeps_lacks. }
  destruct (Js.split Js.comma (Js.removeAll Js.CR line))
    as [|c0 [|c1 [|c2 l]]]; try discriminate.
  intros [= <-]. simpl.
  apply Forall_cons in Hall as [H0 Hall].
  apply Forall_cons in Hall as [H1 Hall].
  by apply Forall_cons in Hall as [H2 _].
Qed.

(** X8. No field of a parsed Stock contains a comma, a carriage return or
    a line feed, whatever the text of the source. *)
Theorem parseCSV_fields_clean (csv : string) (st : Stock) (d : ascii) :
  st ∈ parseCSV csv →
  d = Js.comma ∨ d = Js.CR ∨ d = Js.LF →
  Js.lacks d (Symbol st) = true ∧ Js.lacks d (Security st) = true
  ∧ Js.lacks d (Market st) = true.
Proof.
  unfold parseCSV. intros Hin Hd.
  apply list_elem_of_omap in Hin as (line & Hline & Hparse).
  apply (subseteq_drop 1) in Hline.
  pose proof (split_pieces_lack Js.LF Js.LF csv (or_introl eq_refl)) as Hlf.
  rewrite Forall_forall in Hlf. specialize (Hlf line Hline).
  apply (parseLine_clean d line st); [| exact Hparse].
  destruct Hd as [-> | [-> | ->]]; auto.
Qed.

Lemma parseCSV_fields_clean_witness :
  apple ∈ parseCSV usCsv
  ∧ Js.lacks Js.CR (Market apple) = true
  ∧ Js.removeAll Js.CR (crlf "NASDAQ,extra") = "NASDAQ,extra".
Proof.
  assert (Hin : apple ∈ parseCSV usCsv)
    by (apply list_elem_of_singleton; reflexivity).
  split; [exact Hin |].
  destruct (parseCSV_fields_clean usCsv apple Js.CR Hin) as (_ & _ & Hm);
    [by right; left |].
  split; [exact Hm | reflexivity].
Defined.

Lemma length_omap_le {A B : Type} (f : A → option B) (l : list A) :
  length (omap f l) ≤ length l.
Proof.
  induction l as [|x l IH]; [reflexivity |].
  cbn. destruct (f x); cbn in *; lia.
Qed.

(** X9. A source yields fewer Stocks than it has lines; a source without a
    line feed (the empty text, or a header alone) yields none. *)
Theorem parseCSV_rows_bounded (csv : string) :
  length (parseCSV csv) < length (Js.split Js.LF csv)
  ∧ (Js.lacks Js.LF csv = true → parseCSV csv = []).
Proof.
  unfold parseCSV. split.
  - pose proof (length_omap_le parseLine (drop 1 (Js.split Js.LF csv))) as Hle.
    rewrite length_drop in Hle.
    pose proof (split_nonempty Js.LF csv) as Hne.
    destruct (Js.split Js.LF csv); [done |]. simpl in *. lia.
  - intros Hl. by rewrite split_lacks.
Qed.

Lemma parseCSV_rows_bounded_witness :
  parseCSV "Symbol,Security,Market" = [] ∧ parseCSV "" = []
  ∧ length (parseCSV usCsv) < 4.
Proof.
  split; [| split].
  - apply (proj2 (parseCSV_rows_bounded "Symbol,Security,Market")). reflexivity.
  - apply (proj2 (parseCSV_rows_bounded "")). reflexivity.
  - apply (proj1 (parseCSV_rows_bounded usCsv)).
Defined.

(** ** Search *)

Lemma filter_sublist_mono {A : Type} (P Q : A → Prop)
    `{!∀ x, Decision (P x)} `{!∀ x, Decision (Q x)} (l : list A) :
  (∀ x, P x → Q x) → filter P l `sublist_of` filter Q l.
Proof.
  intros HPQ. induction l as [|x l IH]; [constructor |].
  rewrite !filter_cons.
  destruct (decide (P x)) as [HP | HP].
  - rewrite decide_True by auto. by constructor.
  - destruct (decide (Q x)); [by constructor | exact IH].
Qed.

Lemma found_narrows `{Env} (q1 q2 : string) (st : Stock) :
  Js.includes (toLowerCase q2) (toLowerCase q1) = true →
  found q2 st → found q1 st.
Proof.
  intros (a & b & Hq)%includes_spec.
  assert (Hc : ∀ field, containsIgnoringCase field q2 →
                        containsIgnoringCase field q1).
  { intros field (pre & post & Hf). exists (pre +:+ a), (b +:+ post).
    by rewrite Hf, Hq, !append_assoc. }
  intros [Hs | Hn]; [left | right]; by apply Hc.
Qed.

(** X10. When the catalog holds at most 20 matches of a non-empty query,
    the ResultSet is all of them: a Security is in it exactly when it is in
    the catalog and the query matches its symbol or its name.  In general
    the ResultSet has 20 elements or as many as there are matches,
    whichever is less. *)
Theorem search_complete `{Env} (catalog : list Stock) (q : string) :
  q ≠ "" →
  length (search catalog q)
  = 20 `min` length (filter (λ s, matches (toLowerCase q) s) catalog)
  ∧ (length (filter (λ s, matches (toLowerCase q) s) catalog) ≤ 20 →
     ∀ st, st ∈ search catalog q ↔ st ∈ catalog ∧ found q st).
Proof.
  intros Hq. unfold search. apply String.eqb_neq in Hq. rewrite Hq.
  split; [apply length_take |].
  intros Hlen st. rewrite take_ge by exact Hlen.
  rewrite list_elem_of_filter, Is_true_true, matches_spec. unfold found. tauto.
Qed.

Lemma search_complete_witness :
  samsung ∈ @search (asciiEnv None) [apple; samsung] "SAMSUNG"
  ∧ length (@search (asciiEnv None) [apple; samsung] "a") = 2.
Proof.
  destruct (@search_complete (asciiEnv None) [apple; samsung] "SAMSUNG")
    as [_ Hall]; [discriminate |].
  destruct (@search_complete (asciiEnv None) [apple; samsung] "a")
    as [Hlen _]; [discriminate |].
  split; [| exact Hlen].
  apply Hall; [vm_compute; lia |].
  split; [apply list_elem_of_lookup; by exists 1 |].
  right. by exists "", " electronics".
Defined.

(** X11. Typing on narrows the matches: when the lower-cased earlier query
    occurs inside the lower-cased later one, every Security the later query
    matches is matched by the earlier one; and if the earlier query had at
    most 20 matches, the later ResultSet is a subsequence of the earlier
    ResultSet. *)
Theorem search_narrows `{Env} (catalog : list Stock) (q1 q2 : string) :
  q1 ≠ "" →
  Js.includes (toLowerCase q2) (toLowerCase q1) = true →
  (∀ st, found q2 st → found q1 st)
  ∧ (length (filter (λ s, matches (toLowerCase q1) s) catalog) ≤ 20 →
     search catalog q2 `sublist_of` search catalog q1).
Proof.
  intros Hq Hinc. split; [intros st; by apply found_narrows |].
  intros Hlen. unfold search. apply String.eqb_neq in Hq. rewrite Hq.
  destruct (String.eqb q2 ""); [apply sublist_nil_l |].
  rewrite (take_ge _ _ Hlen). etrans; [apply sublist_take |].
  apply filter_sublist_mono. intros st.
  rewrite !Is_true_true, !matches_spec. by apply found_narrows.
Qed.

Lemma search_narrows_witness :
  @search (asciiEnv None) [apple; samsung] "Sam"
  `sublist_of` @search (asciiEnv None) [apple; samsung] "a".
Proof.
  apply (@search_narrows (asciiEnv None) [apple; samsung] "a" "Sam");
    [discriminate | reflexivity | vm_compute; lia].
Defined.

(** ** Responses *)

Lemma fetchJson_fulfilled {T : Type} (o : FetchOutcome T) (data : T) :
  fetchJson o = Fulfilled data
  ↔ ∃ status, o = Response status (Some data) ∧ (200 ≤ status ≤ 299)%Z.
Proof.
  split.
  - destruct o as [|status [d|]]; unfold fetchJson, fetched, then_, ok; simpl.
    + discriminate.
    + destruct (200 <=? status)%Z eqn:E1; [| discriminate].
      destruct (status <=? 299)%Z eqn:E2; [| discriminate].
      simpl. intros [= ->]. exists status. split; [reflexivity | lia].
    + by destruct ((200 <=? status)%Z && (status <=? 299)%Z).
  - intros (status & -> & Hok). by apply fetchJson_success.
Qed.



(** X13. The response to a pending AI request is applied whatever the
    Selection is, also when nothing is selected: the AI value is the body
    exactly when the status is 2xx and the body decodes and null otherwise,
    the AI loading flag becomes false and no AI request remains in flight.
    The price pipeline, the query, the ResultSet, the Selection and the
    catalog are as before. *)
Theorem ai_response_effect `{Env}
    (s : State) (i : nat) (req : Request) (o : FetchOutcome AiResult) :
  reachable s →
  pendingAi s !! i = Some req →
  ∃ s', step (AiResponse i o) s = Some s'
        ∧ (∀ data, aiResult s' = Some data
                   ↔ ∃ status, o = Response status (Some data)
                               ∧ (200 ≤ status ≤ 299)%Z)
        ∧ loadingAi s' = false
        ∧ pendingAi s' = []
        ∧ query s' = query s ∧ results s' = results s
        ∧ selected s' = selected s ∧ allStocks s' = allStocks s
        ∧ latestPrice s' = latestPrice s ∧ loadingPrice s' = loadingPrice s
        ∧ pendingPrice s' = pendingPrice s.
Proof.
  intros Hr Hi.
  assert (Hdel : delete i (pendingAi s) = []).
  { destruct (reachable_coherent s Hr) as (_ & _ & _ & [_ Hai]).
    destruct Hai as [[_ Hlen] | [_ Hnil]]; [| by rewrite Hnil in Hi].
    destruct (pendingAi s) as [|x [|y l]]; try discriminate Hlen.
    destruct i; [reflexivity | discriminate Hi]. }
  eexists. split; [by eapply step_ai_response |].
  unfold aiSettled. rewrite Hdel.
  destruct (fetchJson o) as [data|] eqn:E; simpl; split_and!; try done.
  - intros d. rewrite <- fetchJson_fulfilled, E. split; congruence.
  - intros d. rewrite <- fetchJson_fulfilled, E. split; discriminate.
Qed.

Lemma ai_response_effect_witness :
  ∃ s', @step (asciiEnv None) (AiResponse 0 (Response 200 (Some sampleAi)))
          (@runEffects (asciiEnv None) analyzing (onChange "sam" analyzing))
        = Some s'
        ∧ selected s' = None
        ∧ aiResult s' = Some sampleAi
        ∧ loadingAi s' = false.
Proof.
  destruct (@ai_response_effect (asciiEnv None)
              (@runEffects (asciiEnv None) analyzing (onChange "sam" analyzing))
              0 (mkRequest "/api/ai?symbol=AAPL&market=NASDAQ" apple)
              (Response 200 (Some sampleAi)))
    as (s' & Hstep & Hv & Hl & _ & _ & _ & Hsel & _).
  - exists (toAnalyzing ++ [Change "sam"]). reflexivity.
  - reflexivity.
  - exists s'. split; [exact Hstep |]. split; [exact Hsel |].
    split; [| exact Hl]. apply Hv. exists 200%Z. split; [reflexivity | lia].
Defined.

(** ** Editing without a Selection *)

(** X14. An edit of the query text while nothing is selected changes the
    query and, when the text differs, the ResultSet, and nothing else: a
    price value or AI value a late response has left, both loading flags
    and the requests in flight stay as they are. *)
Theorem edit_without_selection `{Env} (s : State) (v : string) :
  selected s = None →
  ∃ s', step (Change v) s = Some s'
        ∧ query s' = v
        ∧ results s'
          = (if String.eqb (query s) v then results s
             else search (allStocks s) v)
        ∧ selected s' = None
        ∧ latestPrice s' = latestPrice s ∧ aiResult s' = aiResult s
        ∧ loadingPrice s' = loadingPrice s ∧ loadingAi s' = loadingAi s
        ∧ pendingPrice s' = pendingPrice s ∧ pendingAi s' = pendingAi s
        ∧ allStocks s' = allStocks s ∧ catalog s' = catalog s.
Proof.
  intros Hsel.
  destruct (step (Change v) s) as [s'|] eqn:Hstep; [| discriminate Hstep].
  exists s'. split; [reflexivity |].
  apply step_inv in Hstep. subst s'. simpl. rewrite Hsel. simpl.
  by split_and!.
Qed.

Lemma edit_without_selection_witness :
  ∃ s', @step (asciiEnv None) (Change "sam")
          (setLatestPrice (Some (371 # 2)) searching) = Some s'
        ∧ results s' = [samsung]
        ∧ selected s' = None
        ∧ latestPrice s' = Some (371 # 2).
Proof.
  destruct (@edit_without_selection (asciiEnv None)
              (setLatestPrice (Some (371 # 2)) searching) "sam" eq_refl)
    as (s' & Hstep & _ & Hres & Hsel & Hlp & _).
  exists s'. split; [exact Hstep |]. split; [exact Hres |].
  split; [exact Hsel | exact Hlp].
Defined.
